(** * Verification of the gesture pipeline of fappy-bird

    A shallow embedding of [src/src/motionDetection.js] (class
    [MotionDetector]) and of the hand-selection part of
    [src/src/handTracking.js] (class [HandTracker]).

    Numbers of the JavaScript code are modelled as rationals [Q]: every
    operation the code performs on positions, times and velocities is a
    field operation or a comparison, so the rationals reproduce it exactly
    up to floating-point rounding.  The clock [performance.now()] is an
    effect of the host; every operation that reads it receives the value it
    would read as an explicit argument [now]. *)

From Stdlib Require Import QArith Qring List Arith Lia Lqa ZArith Bool.
Import ListNotations.

Open Scope Q_scope.

(** Boolean strict comparison of rationals ([a < b] in JavaScript). *)
Definition Qltb (a b : Q) : bool := negb (Qle_bool b a).

Lemma Qltb_iff (a b : Q) : Qltb a b = true <-> a < b.
Proof.
  unfold Qltb. rewrite negb_true_iff.
  split; intro H.
  - apply Qnot_le_lt. intro H'. apply Qle_bool_iff in H'. congruence.
  - destruct (Qle_bool b a) eqn:E; [|reflexivity].
    apply Qle_bool_iff in E. exfalso. apply (Qlt_not_le _ _ H E).
Qed.

(** [Math.max(a, b)]. *)
Definition js_max (a b : Q) : Q := if Qle_bool b a then a else b.

(** [list.slice(-n)]: the last [n] elements (the whole list when shorter). *)
Definition slice_last {A} (n : nat) (l : list A) : list A :=
  skipn (length l - n) l.

(** [list.push(x); if (list.length > cap) list.shift();] *)
Definition push_capped {A} (cap : nat) (l : list A) (x : A) : list A :=
  let l' := l ++ [x] in
  if Nat.ltb cap (length l') then tl l' else l'.

(** ** MotionDetector *)
Module Motion.

(** ['idle' | 'moving_up' | 'cooldown'] *)
Inductive mstate := Idle | MovingUp | Cooldown.

(** [{ y: this.smoothedY, time: now }] *)
Record sample := { s_y : Q; s_time : Q }.

(** The constant configuration fields set by the constructor. *)
Definition maxPositions : nat := 10.
Definition smoothingFactor : Q := 4 # 10.
Definition jumpThreshold : Q := 10.
Definition cooldownFrames : nat := 10.
Definition requiredUpwardFrames : nat := 2.
Definition maxVelocityHistory : nat := 5.

(** The mutable fields of a [MotionDetector] instance. *)
Record MotionDetector := mkMD {
  positions : list sample;
  smoothedY : option Q;
  cooldownTimer : nat;
  state : mstate;
  upwardFrames : nat;
  peakVelocity : Q;
  velocityHistory : list Q;
  currentVelocity : Q;
  rawY : Q
}.

(** [constructor()] *)
Definition init : MotionDetector := {|
  positions := [];
  smoothedY := None;
  cooldownTimer := 0;
  state := Idle;
  upwardFrames := 0;
  peakVelocity := 0;
  velocityHistory := [];
  currentVelocity := 0;
  rawY := 0
|}.

(** [addPosition(y)], with [now = performance.now()]. *)
Definition addPosition (s : MotionDetector) (y now : Q) : MotionDetector :=
  let sm := match smoothedY s with
            | None => y
            | Some p => smoothingFactor * y + (1 - smoothingFactor) * p
            end in
  {| positions := push_capped maxPositions (positions s) {| s_y := sm; s_time := now |};
     smoothedY := Some sm;
     cooldownTimer := cooldownTimer s;
     state := state s;
     upwardFrames := upwardFrames s;
     peakVelocity := peakVelocity s;
     velocityHistory := velocityHistory s;
     currentVelocity := currentVelocity s;
     rawY := y |}.

(** The [for (let i = 1; i < recent.length; i++)] loop of [getVelocity]:
    [i] is the loop index, [prev] is [recent[i - 1]], [tv] and [tw] are
    [totalVelocity] and [totalWeight]. *)
Fixpoint velocity_loop (i : nat) (prev : sample) (rest : list sample) (tv tw : Q)
  : Q * Q :=
  match rest with
  | [] => (tv, tw)
  | cur :: rest' =>
      let dy := s_y cur - s_y prev in
      let dt := s_time cur - s_time prev in
      let normalizedVelocity := (dy / js_max dt 1) * (1667 # 100) in
      let weight := inject_Z (Z.of_nat i) in
      velocity_loop (S i) cur rest' (tv + normalizedVelocity * weight) (tw + weight)
  end.

(** [getVelocity()]: the returned velocity and the updated instance. *)
Definition getVelocity (s : MotionDetector) : Q * MotionDetector :=
  if Nat.ltb (length (positions s)) 2 then (0, s) else
  let recent := slice_last 4 (positions s) in
  let '(tv, tw) := match recent with
                   | [] => (0, 0)
                   | p :: rest => velocity_loop 1 p rest 0 0
                   end in
  let avgVelocity := if Qltb 0 tw then tv / tw else 0 in
  (avgVelocity,
   {| positions := positions s;
      smoothedY := smoothedY s;
      cooldownTimer := cooldownTimer s;
      state := state s;
      upwardFrames := upwardFrames s;
      peakVelocity := peakVelocity s;
      velocityHistory := push_capped maxVelocityHistory (velocityHistory s) avgVelocity;
      currentVelocity := avgVelocity;
      rawY := rawY s |}).

Definition with_machine (s : MotionDetector) (st : mstate) (uf timer : nat)
  : MotionDetector :=
  {| positions := positions s;
     smoothedY := smoothedY s;
     cooldownTimer := timer;
     state := st;
     upwardFrames := uf;
     peakVelocity := peakVelocity s;
     velocityHistory := velocityHistory s;
     currentVelocity := currentVelocity s;
     rawY := rawY s |}.

(** [update(y)]: [None] stands for [null] and [undefined]. *)
Definition update (s : MotionDetector) (y : option Q) (now : Q)
  : MotionDetector * bool :=
  match y with
  | None => (s, false)
  | Some y =>
      let s1 := addPosition s y now in
      let '(velocity, s2) := getVelocity s1 in
      (* if (this.cooldownTimer > 0) this.cooldownTimer--; *)
      let timer := Nat.pred (cooldownTimer s2) in
      let uf := upwardFrames s2 in
      match state s2 with
      | Idle =>
          if Qltb velocity (-5) then (with_machine s2 MovingUp 1 timer, false)
          else (with_machine s2 Idle uf timer, false)
      | MovingUp =>
          if Qltb velocity (-5) then
            let uf' := S uf in
            if Nat.leb requiredUpwardFrames uf' && Qltb velocity (- jumpThreshold)
               && Nat.eqb timer 0
            then (with_machine s2 Cooldown uf' cooldownFrames, true)
            else (with_machine s2 MovingUp uf' timer, false)
          else (with_machine s2 Idle 0 timer, false)
      | Cooldown =>
          if Qltb 3 velocity then (with_machine s2 Idle 0 timer, false)
          else (with_machine s2 Cooldown uf timer, false)
      end
  end.

(** [reset()] *)
Definition reset (s : MotionDetector) : MotionDetector :=
  {| positions := [];
     smoothedY := None;
     cooldownTimer := 0;
     state := Idle;
     upwardFrames := 0;
     peakVelocity := 0;
     velocityHistory := [];
     currentVelocity := 0;
     rawY := rawY s |}.

(** The outputs of successive non-null [update] calls, each with the
    timestamp the clock shows at that call. *)
Fixpoint run (s : MotionDetector) (ys : list (Q * Q)) : list bool :=
  match ys with
  | [] => []
  | (y, now) :: rest => let '(s', b) := update s (Some y) now in b :: run s' rest
  end.

(** The outputs of successive non-null [update] calls up to and including
    the first call whose computed velocity exceeds the cooldown-exit
    threshold [3]. *)
Fixpoint run_until_exit (s : MotionDetector) (ys : list (Q * Q)) : list bool :=
  match ys with
  | [] => []
  | (y, now) :: rest =>
      let v := fst (getVelocity (addPosition s y now)) in
      let '(s', b) := update s (Some y) now in
      if Qltb 3 v then [b] else b :: run_until_exit s' rest
  end.

End Motion.

(** ** HandTracker: hand selection and persistence *)
Module Hands.

(** A landmark [{x, y}]. *)
Record point := { px : Q; py : Q }.

(** A detection: its [keypoints] array.  [None] is an entry that is
    [undefined] or [null]; an index past the end is [undefined] too. *)
Record hand := { keypoints : list (option point) }.

(** [{ y: center.y, velocity, time: performance.now() }] of [trackVelocity]. *)
Record vsample := { v_y : Q; v_velocity : Q; v_time : Q }.

Definition historyLength : nat := 10.
Definition maxLostFrames : nat := 8.
Definition maxVelocityHistory : nat := 5.

(** The fields of a [HandTracker] that the detection pipeline reads and
    writes.  The camera, worker and canvas fields are I/O handles; the
    drawing methods [drawDebug] and [clearDebug] touch only the canvas and
    are no-ops here. *)
Record HandTracker := mkHT {
  lastHand : option hand;
  lastHandCenter : option point;
  handHistories : list (list Q);
  activeHandIndex : Z;
  lostFrames : nat;
  lastValidCenter : option point;
  lastValidHand : option hand;
  tvelocityHistory : list vsample;
  squirtDetected : bool
}.

(** [constructor()] *)
Definition init : HandTracker := {|
  lastHand := None;
  lastHandCenter := None;
  handHistories := [[]; []];
  activeHandIndex := (-1)%Z;
  lostFrames := 0;
  lastValidCenter := None;
  lastValidHand := None;
  tvelocityHistory := [];
  squirtDetected := false
|}.

(** The loop of [getHandCenter] over [indices = [0, 5, 9, 13, 17]]. *)
Fixpoint center_loop (kps : list (option point)) (idx : list nat) (sumX sumY : Q)
  (count : nat) : Q * Q * nat :=
  match idx with
  | [] => (sumX, sumY, count)
  | i :: idx' =>
      match nth_error kps i with
      | Some (Some p) => center_loop kps idx' (sumX + px p) (sumY + py p) (S count)
      | _ => center_loop kps idx' sumX sumY count
      end
  end.

Definition stable_indices : list nat := [0; 5; 9; 13; 17]%nat.

(** [getHandCenter(hand)] *)
Definition getHandCenter (h : hand) : option point :=
  let '(sumX, sumY, count) := center_loop (keypoints h) stable_indices 0 0 0 in
  if Nat.ltb 0 count then
    Some {| px := sumX / inject_Z (Z.of_nat count); py := sumY / inject_Z (Z.of_nat count) |}
  else None.

(** [arr[i] = f(arr[i])] for an index inside the array. *)
Fixpoint update_nth {A} (i : nat) (f : A -> A) (l : list A) : list A :=
  match l, i with
  | [], _ => []
  | x :: l', O => f x :: l'
  | x :: l', S i' => x :: update_nth i' f l'
  end.

(** First loop of [updateHandHistories]:
    [for (let i = 0; i < positions.length && i < 2; i++)]. *)
Fixpoint push_loop (i : nat) (ps : list (option point)) (hh : list (list Q))
  : list (list Q) :=
  match ps with
  | [] => hh
  | p :: ps' =>
      if Nat.ltb i 2 then
        match p with
        | Some c => push_loop (S i) ps' (update_nth i (fun h => push_capped historyLength h (py c)) hh)
        | None => push_loop (S i) ps' hh
        end
      else hh
  end.

(** [updateHandHistories(positions)] *)
Definition updateHandHistories (hh : list (list Q)) (ps : list (option point))
  : list (list Q) :=
  let hh1 := push_loop 0 ps hh in
  (* for (let i = positions.length; i < 2; i++) this.handHistories[i] = []; *)
  fold_left (fun acc i => update_nth i (fun _ => []) acc) (seq (length ps) (2 - length ps)) hh1.

Definition Qsum (l : list Q) : Q := fold_left Qplus l 0.

(** The motion score of one history in [selectActiveHand]. *)
Definition motion (history : list Q) : Q :=
  if Nat.ltb (length history) 3 then 0 else
  let recent := slice_last 5 history in
  let n := inject_Z (Z.of_nat (length recent)) in
  let mean := Qsum recent / n in
  fold_left (fun a b => a + (b - mean) * (b - mean)) recent 0 / n.

(** The object returned by [selectActiveHand]. *)
Record selection := { sel_hand : option hand; sel_center : option point; sel_active : bool }.

(** [array[i]] for an integer index [i]; [None] is [undefined]. *)
Definition js_index {A} (l : list A) (i : Z) : option A :=
  if (i <? 0)%Z then None else nth_error l (Z.to_nat i).

Definition js_index_opt {A} (l : list (option A)) (i : Z) : option A :=
  match js_index l i with Some x => x | None => None end.

(** The new [activeHandIndex] of [selectActiveHand], given the current one
    and the motions [motions[0]], [motions[1]] of the two slots. *)
Definition choose_index (current : Z) (m0 m1 : Q) : Z :=
  (* const activeIndex = motions[0] >= motions[1] ? 0 : 1; *)
  let activeIndex : Z := if Qle_bool m1 m0 then 0%Z else 1%Z in
  let m_active := if (activeIndex =? 0)%Z then m0 else m1 in
  let m_other := if (activeIndex =? 0)%Z then m1 else m0 in
  (* if (this.activeHandIndex === -1 ||
         motions[activeIndex] > motions[1 - activeIndex] * 1.5) *)
  if ((current =? -1)%Z || Qltb (m_other * (3 # 2)) m_active)%bool
  then activeIndex else current.

(** [selectActiveHand(hands, positions)]: the updated tracker and the result. *)
Definition selectActiveHand (ht : HandTracker) (hands : list hand) (ps : list (option point))
  : HandTracker * selection :=
  if Nat.eqb (length hands) 1 then
    (ht, {| sel_hand := js_index hands 0; sel_center := js_index_opt ps 0; sel_active := true |})
  else
  let motions := map motion (handHistories ht) in
  let m0 := nth 0 motions 0 in
  let m1 := nth 1 motions 0 in
  let ai := choose_index (activeHandIndex ht) m0 m1 in
  let ht' := {| lastHand := lastHand ht; lastHandCenter := lastHandCenter ht;
                handHistories := handHistories ht; activeHandIndex := ai;
                lostFrames := lostFrames ht; lastValidCenter := lastValidCenter ht;
                lastValidHand := lastValidHand ht; tvelocityHistory := tvelocityHistory ht;
                squirtDetected := squirtDetected ht |} in
  let idx := Z.min ai (Z.of_nat (length hands) - 1) in
  (ht', {| sel_hand := js_index hands idx; sel_center := js_index_opt ps idx; sel_active := true |}).

(** [trackVelocity(center)] *)
Definition trackVelocity (vh : list vsample) (center : option point) (now : Q)
  : list vsample :=
  match center with
  | None => vh
  | Some c =>
      let entry := match rev vh with
                   | last :: _ => {| v_y := py c; v_velocity := v_y last - py c; v_time := now |}
                   | [] => {| v_y := py c; v_velocity := 0; v_time := now |}
                   end in
      push_capped maxVelocityHistory vh entry
  end.

(** [processHandResult(hands)]: the updated tracker and the returned hand. *)
Definition processHandResult (ht : HandTracker) (hands : list hand) (now : Q)
  : HandTracker * option hand :=
  match hands with
  | [] =>
      let lf := S (lostFrames ht) in
      match lastValidHand ht with
      | Some vh =>
          if Nat.leb lf maxLostFrames then
            ({| lastHand := Some vh; lastHandCenter := lastValidCenter ht;
                handHistories := handHistories ht; activeHandIndex := activeHandIndex ht;
                lostFrames := lf; lastValidCenter := lastValidCenter ht;
                lastValidHand := lastValidHand ht; tvelocityHistory := tvelocityHistory ht;
                squirtDetected := squirtDetected ht |}, Some vh)
          else
            ({| lastHand := None; lastHandCenter := None;
                handHistories := handHistories ht; activeHandIndex := activeHandIndex ht;
                lostFrames := lf; lastValidCenter := lastValidCenter ht;
                lastValidHand := lastValidHand ht; tvelocityHistory := tvelocityHistory ht;
                squirtDetected := squirtDetected ht |}, None)
      | None =>
          ({| lastHand := None; lastHandCenter := None;
              handHistories := handHistories ht; activeHandIndex := activeHandIndex ht;
              lostFrames := lf; lastValidCenter := lastValidCenter ht;
              lastValidHand := lastValidHand ht; tvelocityHistory := tvelocityHistory ht;
              squirtDetected := squirtDetected ht |}, None)
      end
  | _ =>
      let handPositions := map getHandCenter hands in
      let ht1 := {| lastHand := lastHand ht; lastHandCenter := lastHandCenter ht;
                    handHistories := updateHandHistories (handHistories ht) handPositions;
                    activeHandIndex := activeHandIndex ht;
                    lostFrames := 0; lastValidCenter := lastValidCenter ht;
                    lastValidHand := lastValidHand ht; tvelocityHistory := tvelocityHistory ht;
                    squirtDetected := squirtDetected ht |} in
      let '(ht2, activeHand) := selectActiveHand ht1 hands handPositions in
      (* [activeHand] is an object, hence truthy: [return hands[0]] is dead. *)
      ({| lastHand := sel_hand activeHand; lastHandCenter := sel_center activeHand;
          handHistories := handHistories ht2; activeHandIndex := activeHandIndex ht2;
          lostFrames := lostFrames ht2; lastValidCenter := sel_center activeHand;
          lastValidHand := sel_hand activeHand;
          tvelocityHistory := trackVelocity (tvelocityHistory ht2) (sel_center activeHand) now;
          squirtDetected := squirtDetected ht2 |}, sel_hand activeHand)
  end.

(** [checkSquirt()]: the updated tracker and the returned flag. *)
Definition checkSquirt (ht : HandTracker) : HandTracker * bool :=
  if squirtDetected ht then (ht, true) else
  if Nat.ltb (length (tvelocityHistory ht)) 3 then (ht, false) else
  let recent := slice_last 3 (tvelocityHistory ht) in
  let avgVelocity := Qsum (map v_velocity recent) / inject_Z (Z.of_nat (length recent)) in
  let lastY := match rev (tvelocityHistory ht) with l :: _ => v_y l | [] => 0 end in
  let nearTop := Qltb lastY 50 in
  let movingFastUp := Qltb 15 avgVelocity in
  if (movingFastUp && (nearTop || (Nat.ltb 0 (lostFrames ht) && Nat.ltb (lostFrames ht) 5)))%bool
  then ({| lastHand := lastHand ht; lastHandCenter := lastHandCenter ht;
           handHistories := handHistories ht; activeHandIndex := activeHandIndex ht;
           lostFrames := lostFrames ht; lastValidCenter := lastValidCenter ht;
           lastValidHand := lastValidHand ht; tvelocityHistory := tvelocityHistory ht;
           squirtDetected := true |}, true)
  else (ht, false).

(** [resetSquirt()] *)
Definition resetSquirt (ht : HandTracker) : HandTracker :=
  {| lastHand := lastHand ht; lastHandCenter := lastHandCenter ht;
     handHistories := handHistories ht; activeHandIndex := activeHandIndex ht;
     lostFrames := lostFrames ht; lastValidCenter := lastValidCenter ht;
     lastValidHand := lastValidHand ht; tvelocityHistory := [];
     squirtDetected := false |}.

(** [getWristPosition()] *)
Definition getWristPosition (ht : HandTracker) : option point :=
  match lastHandCenter ht with
  | Some c => Some c
  | None =>
      match lastHand ht with
      | None => None
      | Some h => getHandCenter h
      end
  end.

(** The way a call to [detect()] is served. *)
Inductive detect_path :=
(* [return null] before any field is written: not ready, no video, no
   detector, or [createImageBitmap] / [estimateHands] threw *)
| NotServed
(* [detectWithWorker()]: the frame goes to the worker and the call returns
   [this.processHandResult(this.lastHand ? [this.lastHand] : [])] *)
| ViaWorker
(* main-thread fallback: [estimateHands] resolved with [hands] *)
| MainThread (hands : list hand).

(** [detect()]: the updated tracker and the returned hand.  The main-thread
    branch repeats the body of [processHandResult] line for line. *)
Definition detect (ht : HandTracker) (path : detect_path) (now : Q)
  : HandTracker * option hand :=
  match path with
  | NotServed => (ht, None)
  | ViaWorker =>
      processHandResult ht (match lastHand ht with Some h => [h] | None => [] end) now
  | MainThread hands => processHandResult ht hands now
  end.

End Hands.

(** ** Concrete inputs used by the examples below *)
Module Scenarios.
Import Motion.

(** The clock at tick [n] of a 60 fps loop: [n * 16.67] ms. *)
Definition tick (n : nat) : Q := inject_Z (Z.of_nat n) * (1667 # 100).

(** The samples [y = 200, 170, 140, 100, 60] at 16.67 ms intervals. *)
Definition pump : list (Q * Q) :=
  [(200, tick 0); (170, tick 1); (140, tick 2); (100, tick 3); (60, tick 4)].

(** A fresh detector after the first two samples of [pump]; its next call,
    [update(140)] at [tick 2], emits a jump. *)
Definition md_before_jump : MotionDetector :=
  fst (update (fst (update init (Some 200) (tick 0))) (Some 170) (tick 1)).

Definition md_after_jump : MotionDetector :=
  fst (update md_before_jump (Some 140) (tick 2)).

(** After the jump: five samples moving down, then a fast move up. *)
Definition down_then_up : list (Q * Q) :=
  [(400, tick 3); (400, tick 4); (400, tick 5); (400, tick 6); (400, tick 7);
   (0, tick 8); (-200, tick 9); (-400, tick 10); (-600, tick 11); (-800, tick 12)].

End Scenarios.

(** ** States reachable through the public methods *)
Module Reach.
Import Hands.

(** Every state a [MotionDetector] can reach through its constructor and its
    methods [update], [addPosition], [getVelocity] and [reset]. *)
Inductive md_reachable : Motion.MotionDetector -> Prop :=
| md_init : md_reachable Motion.init
| md_update s y now : md_reachable s -> md_reachable (fst (Motion.update s y now))
| md_add s y now : md_reachable s -> md_reachable (Motion.addPosition s y now)
| md_velocity s : md_reachable s -> md_reachable (snd (Motion.getVelocity s))
| md_reset s : md_reachable s -> md_reachable (Motion.reset s).

(** [updateHandHistories] called as a method. *)
Definition withHistories (ht : HandTracker) (ps : list (option point)) : HandTracker :=
  {| lastHand := lastHand ht; lastHandCenter := lastHandCenter ht;
     handHistories := updateHandHistories (handHistories ht) ps;
     activeHandIndex := activeHandIndex ht;
     lostFrames := lostFrames ht; lastValidCenter := lastValidCenter ht;
     lastValidHand := lastValidHand ht; tvelocityHistory := tvelocityHistory ht;
     squirtDetected := squirtDetected ht |}.

(** [trackVelocity] called as a method. *)
Definition withTrack (ht : HandTracker) (c : option point) (now : Q) : HandTracker :=
  {| lastHand := lastHand ht; lastHandCenter := lastHandCenter ht;
     handHistories := handHistories ht; activeHandIndex := activeHandIndex ht;
     lostFrames := lostFrames ht; lastValidCenter := lastValidCenter ht;
     lastValidHand := lastValidHand ht;
     tvelocityHistory := trackVelocity (tvelocityHistory ht) c now;
     squirtDetected := squirtDetected ht |}.

(** Every state a [HandTracker] can reach through its constructor and its
    state-changing methods ([detect] and [detectWithWorker] reach
    [processHandResult]). *)
Inductive ht_reachable : HandTracker -> Prop :=
| ht_init : ht_reachable init
| ht_process ht hands now : ht_reachable ht -> ht_reachable (fst (processHandResult ht hands now))
| ht_histories ht ps : ht_reachable ht -> ht_reachable (withHistories ht ps)
| ht_select ht hands ps : ht_reachable ht -> ht_reachable (fst (selectActiveHand ht hands ps))
| ht_track ht c now : ht_reachable ht -> ht_reachable (withTrack ht c now)
| ht_check ht : ht_reachable ht -> ht_reachable (fst (checkSquirt ht))
| ht_reset_squirt ht : ht_reachable ht -> ht_reachable (resetSquirt ht).

(** [k] consecutive ticks with no detection: the final tracker and the
    hands returned on each tick. *)
Fixpoint empty_ticks (ht : HandTracker) (k : nat) (now : Q)
  : HandTracker * list (option hand) :=
  match k with
  | O => (ht, [])
  | S k' =>
      let '(ht1, r) := processHandResult ht [] now in
      let '(ht2, rs) := empty_ticks ht1 k' now in
      (ht2, r :: rs)
  end.

(** The spec's description of [getHandCenter]: the stable landmarks present
    in the input, and the mean of a list of coordinates. *)
Definition present_at (kps : list (option point)) (idx : list nat) : list point :=
  flat_map (fun i => match nth_error kps i with Some (Some p) => [p] | _ => [] end) idx.

Definition stable_landmarks (h : hand) : list point :=
  present_at (keypoints h) stable_indices.

Definition mean (xs : list Q) : Q :=
  fold_right Qplus 0 xs / inject_Z (Z.of_nat (length xs)).

(** [R] holds between every element of a list and the next one. *)
Fixpoint chain {A} (R : A -> A -> Prop) (l : list A) : Prop :=
  match l with
  | a :: ((b :: _) as t) => R a b /\ chain R t
  | _ => True
  end.

(** One call of a [HandTracker] method other than [resetSquirt]. *)
Inductive tracker_step : HandTracker -> HandTracker -> Prop :=
| step_process ht hands now : tracker_step ht (fst (processHandResult ht hands now))
| step_histories ht ps : tracker_step ht (withHistories ht ps)
| step_select ht hands ps : tracker_step ht (fst (selectActiveHand ht hands ps))
| step_track ht c now : tracker_step ht (withTrack ht c now)
| step_check ht : tracker_step ht (fst (checkSquirt ht)).

(** Any number of such calls. *)
Inductive tracker_steps : HandTracker -> HandTracker -> Prop :=
| steps_refl ht : tracker_steps ht ht
| steps_cons ht1 ht2 ht3 :
    tracker_step ht1 ht2 -> tracker_steps ht2 ht3 -> tracker_steps ht1 ht3.

End Reach.

(** ** The caller: [processHandTracking] of [src/src/main.js] *)
Module Main.
Import Motion Hands.

(** The values [Game.state] takes: ['menu' | 'ready' | 'playing' | 'gameover']. *)
Inductive game_state := GMenu | GReady | GPlaying | GGameover.

(** [state === 'playing' || state === 'ready' || state === 'menu' ||
     state === 'gameover' || state === 'won'] *)
Definition pump_allowed (st : game_state) : bool :=
  match st with
  | GPlaying => true
  | GReady => true
  | GMenu => true
  | GGameover => true
  end.

(** [processHandTracking()]: the tracker and the detector after the call,
    and whether it calls [handleJump()].  [st] is [this.game.getState()];
    [now_detect] and [now_update] are the clock readings of [detect()] and
    of [motionDetector.update()]. *)
Definition processHandTracking (ht : HandTracker) (md : MotionDetector)
  (path : detect_path) (st : game_state) (now_detect now_update : Q)
  : HandTracker * MotionDetector * bool :=
  let '(ht1, hand) := detect ht path now_detect in
  match hand with
  | None => (ht1, md, false)
  | Some _ =>
      match getWristPosition ht1 with
      | None => (ht1, md, false)
      | Some position =>
          let '(md1, shouldJump) := update md (Some (py position)) now_update in
          (ht1, md1, (shouldJump && pump_allowed st)%bool)
      end
  end.

(** [k] rounds of the worker path: a [detect()] call, then a worker result
    with no hand ([onDetectionResult([])], i.e. [processHandResult([])]).
    The hands returned by the two calls of each round, in order. *)
Fixpoint worker_rounds (ht : HandTracker) (k : nat) (now : Q)
  : HandTracker * list (option hand) :=
  match k with
  | O => (ht, [])
  | S k' =>
      let '(ht1, r1) := detect ht ViaWorker now in
      let '(ht2, r2) := processHandResult ht1 [] now in
      let '(ht3, rs) := worker_rounds ht2 k' now in
      (ht3, r1 :: r2 :: rs)
  end.

End Main.

(** Concrete hands used by the examples. *)
Module HandScenarios.
Import Hands.

Definition pt (x y : Q) : point := {| px := x; py := y |}.

(** A hand with all 21 landmarks. *)
Definition full_hand (x y : Q) : hand :=
  {| keypoints := map (fun i => Some (pt (x + inject_Z (Z.of_nat i)) y)) (seq 0 21) |}.

(** A hand whose landmarks are all missing. *)
Definition blank_hand : hand := {| keypoints := [] |}.

(** Histories of variance 10, 14 and 16. *)
Definition hist10 : list Q := [-3; -4; 0; 3; 4].
Definition hist14 : list Q := [-5; -4; 2; 3; 4].
Definition hist16 : list Q := [-6; -3; 1; 3; 5].

Definition tracker_with (hh : list (list Q)) (ai : Z) : HandTracker :=
  {| lastHand := None; lastHandCenter := None; handHistories := hh;
     activeHandIndex := ai; lostFrames := 0; lastValidCenter := None;
     lastValidHand := None; tvelocityHistory := []; squirtDetected := false |}.

(** A tracker whose squirt flag is raised. *)
Definition latched_tracker : HandTracker :=
  {| lastHand := None; lastHandCenter := None; handHistories := [[]; []];
     activeHandIndex := (-1)%Z; lostFrames := 0; lastValidCenter := None;
     lastValidHand := None; tvelocityHistory := []; squirtDetected := true |}.

End HandScenarios.

(** ** Facts on the MotionDetector embedding *)
Module MotionFacts.
Import Motion.

(** Facts on the helpers: [addPosition] and [getVelocity] leave the state
    machine alone. *)
Lemma addPosition_machine s y now :
  state (addPosition s y now) = state s /\
  cooldownTimer (addPosition s y now) = cooldownTimer s /\
  upwardFrames (addPosition s y now) = upwardFrames s.
Proof. repeat split. Qed.

Lemma getVelocity_machine s :
  state (snd (getVelocity s)) = state s /\
  cooldownTimer (snd (getVelocity s)) = cooldownTimer s /\
  upwardFrames (snd (getVelocity s)) = upwardFrames s.
Proof.
  unfold getVelocity. destruct (Nat.ltb _ _); [repeat split|].
  destruct (match slice_last 4 (positions s) with
            | [] => _ | p :: rest => _ end); repeat split.
Qed.

Ltac split_update :=
  repeat match goal with
         | |- context [if ?c then _ else _] => destruct c eqn:?
         | |- context [match ?x with Idle => _ | MovingUp => _ | Cooldown => _ end] =>
             destruct x eqn:?
         end.

(** A call in the [cooldown] state returns [false]; it stays in [cooldown]
    unless its velocity exceeds [3]. *)
Lemma update_cooldown s y now s' b :
  state s = Cooldown ->
  update s (Some y) now = (s', b) ->
  b = false /\
  (Qltb 3 (fst (getVelocity (addPosition s y now))) = false -> state s' = Cooldown).
Proof.
  intros Hs Hu. unfold update in Hu.
  destruct (getVelocity (addPosition s y now)) as [v s2] eqn:E.
  pose proof (getVelocity_machine (addPosition s y now)) as H.
  rewrite E in H. simpl in H. destruct H as [H1 _].
  rewrite H1 in Hu. simpl in Hu. rewrite Hs in Hu. simpl.
  destruct (Qltb 3 v); inversion Hu; subst; split; try reflexivity; discriminate.
Qed.

(** A call that returns [true] leaves the detector in [cooldown] with the
    timer armed, and it was made while the decremented timer read [0]. *)
Lemma update_true s y now s' :
  update s (Some y) now = (s', true) ->
  state s' = Cooldown /\ cooldownTimer s' = cooldownFrames /\
  Nat.pred (cooldownTimer s) = 0%nat.
Proof.
  intro Hu. unfold update in Hu.
  destruct (getVelocity (addPosition s y now)) as [v s2] eqn:E.
  pose proof (getVelocity_machine (addPosition s y now)) as H.
  rewrite E in H. simpl in H. destruct H as [H1 [H2 _]].
  rewrite H2 in Hu. simpl in Hu.
  revert Hu. split_update; intro Hu; inversion Hu; subst; try discriminate.
  all: repeat match goal with
              | H : (_ && _)%bool = true |- _ => apply andb_true_iff in H; destruct H
              end.
  all: repeat split; apply Nat.eqb_eq; assumption.
Qed.

(** A call that returns [false] decrements the timer (down to [0]). *)
Lemma update_false_timer s y now s' :
  update s (Some y) now = (s', false) ->
  cooldownTimer s' = Nat.pred (cooldownTimer s).
Proof.
  intro Hu. unfold update in Hu.
  destruct (getVelocity (addPosition s y now)) as [v s2] eqn:E.
  pose proof (getVelocity_machine (addPosition s y now)) as H.
  rewrite E in H. simpl in H. destruct H as [H1 [H2 _]].
  rewrite H2 in Hu. simpl in Hu.
  revert Hu. split_update; intro Hu; inversion Hu; subst; reflexivity.
Qed.

(** A non-null [update] on a freshly reset detector computes exactly what it
    computes on a fresh instance: [addPosition] overwrites [rawY]. *)
Lemma update_reset_init s y now :
  update (reset s) (Some y) now = update init (Some y) now.
Proof. reflexivity. Qed.

Lemma run_reset_init s ys : run (reset s) ys = run init ys.
Proof.
  destruct ys as [|[y now] rest]; [reflexivity|].
  cbn [run]. rewrite update_reset_init. reflexivity.
Qed.

(** Timer bound: a [true] at position [k] of a run needs the timer at the
    start of the run to be at most [k + 1]. *)
Lemma run_true_timer ys : forall s k,
  nth_error (run s ys) k = Some true -> (cooldownTimer s <= S k)%nat.
Proof.
  induction ys as [|[y now] rest IH]; intros s k H; cbn [run] in H.
  - destruct k; discriminate.
  - destruct (update s (Some y) now) as [s1 b] eqn:Hu.
    destruct k as [|k].
    + cbn [nth_error] in H. inversion H; subst.
      destruct (update_true _ _ _ _ Hu) as [_ [_ Hp]]. lia.
    + cbn [nth_error] in H. specialize (IH s1 k H).
      destruct b.
      * destruct (update_true _ _ _ _ Hu) as [_ [_ Hp]]. lia.
      * rewrite (update_false_timer _ _ _ _ Hu) in IH. lia.
Qed.

(** Once in [cooldown], every call up to the first one whose velocity
    exceeds [3] returns [false]. *)
Lemma run_until_exit_cooldown ys : forall s,
  state s = Cooldown -> Forall (fun b => b = false) (run_until_exit s ys).
Proof.
  induction ys as [|[y now] rest IH]; intros s Hs; cbn [run_until_exit]; [constructor|].
  destruct (update s (Some y) now) as [s1 b] eqn:Hu.
  destruct (update_cooldown s y now s1 b Hs Hu) as [Hb Hst].
  destruct (Qltb 3 (fst (getVelocity (addPosition s y now)))) eqn:Hv.
  - constructor; [exact Hb | constructor].
  - constructor; [exact Hb | apply IH, Hst; reflexivity].
Qed.

End MotionFacts.

(** ** Claims on the MotionDetector *)
Module MotionClaims.
Import Motion MotionFacts Scenarios.

(** C1: once [update] has returned [true], every later non-null call
    returns [false] up to and including the first call whose computed
    velocity exceeds the cooldown-exit threshold [3] (the hand moving back
    down), however the hand moves in between. *)
Theorem jump_once_per_episode s y now s' ys :
  update s (Some y) now = (s', true) ->
  Forall (fun b => b = false) (run_until_exit s' ys).
Proof.
  intro Hu. destruct (update_true _ _ _ _ Hu) as [Hc _].
  apply run_until_exit_cooldown, Hc.
Qed.

Lemma jump_once_per_episode_witness :
  update md_before_jump (Some 140) (tick 2) = (md_after_jump, true) /\
  Forall (fun b => b = false) (run_until_exit md_after_jump [(100, tick 3); (60, tick 4)]).
Proof.
  split; [vm_compute; reflexivity|].
  apply (jump_once_per_episode md_before_jump 140 (tick 2)).
  vm_compute. reflexivity.
Defined.

(** C2 (as stated): the samples [200, 170, 140, 100] give
    [false, false, false, true] and a fifth sample [60] gives [false]. *)
Lemma pump_sequence_as_stated_fails :
  run init pump <> [false; false; false; true; false].
Proof. vm_compute. discriminate. Qed.

(** C2 (amended): with the constructor's thresholds, the jump fires on the
    third sample [140]; the fourth ([100]) and fifth ([60]) fall in the
    cooldown and return [false]. *)
Theorem pump_sequence : run init pump = [false; false; true; false; false].
Proof. vm_compute. reflexivity. Qed.

(** C3: [update(null)] returns [false] and leaves every field of the
    detector as it was (smoothed position, state, positions, cooldown
    timer, upward-frame count, ...). *)
Theorem update_null_frozen s now : update s None now = (s, false).
Proof. reflexivity. Qed.

(** C5 (as stated): [reset()] gives back a fresh instance.  It does not:
    after [update(100)] the reset detector keeps [rawY = 100]. *)
Lemma reset_not_fresh : reset (fst (update init (Some 100) 0)) <> init.
Proof. vm_compute. discriminate. Qed.

(** C5 (amended): [reset()] puts [state = idle], empty [positions] and
    [velocityHistory], [cooldownTimer = 0], [upwardFrames = 0],
    [smoothedY = null], [peakVelocity = 0] and [currentVelocity = 0], and
    from then on every sequence of [update] calls returns what it returns
    on a freshly constructed detector. *)
Theorem reset_restores s :
  state (reset s) = state init /\ positions (reset s) = positions init /\
  velocityHistory (reset s) = velocityHistory init /\
  cooldownTimer (reset s) = cooldownTimer init /\
  upwardFrames (reset s) = upwardFrames init /\
  smoothedY (reset s) = smoothedY init /\
  peakVelocity (reset s) = peakVelocity init /\
  currentVelocity (reset s) = currentVelocity init /\
  (forall ys, run (reset s) ys = run init ys).
Proof.
  repeat split. intro ys. apply run_reset_init.
Qed.

(** C10: a call returns [true] only when the cooldown timer, after its
    decrement, reads [0]; so after a jump arms the timer with
    [cooldownFrames = 10], the next [true] can come at the earliest from the
    tenth further non-null call (index [k >= 9] of the run, counted from
    [0]), whatever the state machine does in between. *)
Theorem cooldown_gates_jump s y now s' :
  update s (Some y) now = (s', true) ->
  Nat.pred (cooldownTimer s) = 0%nat /\
  forall ys k, nth_error (run s' ys) k = Some true -> (9 <= k)%nat.
Proof.
  intro Hu. destruct (update_true _ _ _ _ Hu) as [_ [Ht Hp]].
  split; [exact Hp|].
  intros ys k Hk. pose proof (run_true_timer ys s' k Hk) as H.
  rewrite Ht in H. unfold cooldownFrames in H. lia.
Qed.

(** The bound of C10 is reached: a hand that goes down and pumps up again
    gets its next jump on the tenth call after the first one. *)
Lemma cooldown_gates_jump_witness :
  Nat.pred (cooldownTimer md_before_jump) = 0%nat /\
  nth_error (run md_after_jump down_then_up) 9 = Some true /\ (9 <= 9)%nat.
Proof.
  assert (Hu : update md_before_jump (Some 140) (tick 2) = (md_after_jump, true))
    by (vm_compute; reflexivity).
  destruct (cooldown_gates_jump _ _ _ _ Hu) as [Hp Hk].
  assert (H9 : nth_error (run md_after_jump down_then_up) 9 = Some true)
    by (vm_compute; reflexivity).
  split; [exact Hp|]. split; [exact H9|]. exact (Hk _ _ H9).
Defined.

End MotionClaims.

(** ** Facts on the HandTracker embedding *)
Module HandFacts.
Import Hands Reach.

Lemma update_nth_length {A} (i : nat) (f : A -> A) (l : list A) :
  length (update_nth i f l) = length l.
Proof.
  revert i. induction l as [|x l IH]; intros [|i]; simpl; auto.
Qed.

Lemma push_loop_length ps : forall i hh, length (push_loop i ps hh) = length hh.
Proof.
  induction ps as [|p ps IH]; intros i hh; simpl; [reflexivity|].
  destruct (Nat.ltb i 2); [|reflexivity].
  destruct p; rewrite IH; [apply update_nth_length | reflexivity].
Qed.

Lemma clear_loop_length (l : list nat) : forall (acc : list (list Q)),
  length (fold_left (fun acc i => update_nth i (fun _ => []) acc) l acc) = length acc.
Proof.
  induction l as [|i l IH]; intro acc; simpl; [reflexivity|].
  rewrite IH. apply update_nth_length.
Qed.

Lemma updateHandHistories_length hh ps :
  length (updateHandHistories hh ps) = length hh.
Proof.
  unfold updateHandHistories. rewrite clear_loop_length. apply push_loop_length.
Qed.

Definition index_ok (z : Z) : Prop := (z = -1 \/ z = 0 \/ z = 1)%Z.

Lemma choose_index_range cur m0 m1 :
  index_ok cur -> (choose_index cur m0 m1 = 0 \/ choose_index cur m0 m1 = 1)%Z.
Proof.
  unfold index_ok, choose_index. intro H.
  destruct (Qle_bool m1 m0); cbn;
    destruct (Z.eqb_spec cur (-1)) as [E|E]; cbn; try lia;
    destruct (Qltb _ _); cbn; lia.
Qed.

Lemma select_fields ht hands ps :
  let ht' := fst (selectActiveHand ht hands ps) in
  handHistories ht' = handHistories ht /\ lostFrames ht' = lostFrames ht /\
  lastValidHand ht' = lastValidHand ht /\ lastValidCenter ht' = lastValidCenter ht /\
  (activeHandIndex ht' = activeHandIndex ht \/
   activeHandIndex ht' = choose_index (activeHandIndex ht)
                           (nth 0 (map motion (handHistories ht)) 0)
                           (nth 1 (map motion (handHistories ht)) 0)).
Proof.
  unfold selectActiveHand. destruct (Nat.eqb (length hands) 1); cbn; auto 10.
Qed.

Lemma select_index_ok ht hands ps :
  index_ok (activeHandIndex ht) ->
  index_ok (activeHandIndex (fst (selectActiveHand ht hands ps))).
Proof.
  intro H. destruct (select_fields ht hands ps) as [_ [_ [_ [_ [E|E]]]]];
    rewrite E; [exact H|].
  destruct (choose_index_range _ (nth 0 (map motion (handHistories ht)) 0)
             (nth 1 (map motion (handHistories ht)) 0) H) as [H'|H'];
    unfold index_ok; lia.
Qed.

(** The invariant of the hand selector. *)
Definition ht_inv (ht : HandTracker) : Prop :=
  index_ok (activeHandIndex ht) /\ length (handHistories ht) = 2%nat.

Lemma process_inv ht hands now :
  ht_inv ht -> ht_inv (fst (processHandResult ht hands now)).
Proof.
  intros [Hi Hl]. unfold processHandResult.
  destruct hands as [|h0 rest].
  - destruct (lastValidHand ht); [destruct (Nat.leb _ _)|]; split; assumption.
  - cbv zeta.
    destruct (selectActiveHand _ (h0 :: rest) _) as [ht2 sel] eqn:E.
    match type of E with selectActiveHand ?h1 _ _ = _ =>
      pose proof (select_fields h1 (h0 :: rest) (map getHandCenter (h0 :: rest))) as F;
      pose proof (select_index_ok h1 (h0 :: rest) (map getHandCenter (h0 :: rest)) Hi) as G
    end.
    rewrite E in F, G. simpl in F, G. destruct F as [F1 _].
    split; simpl; [exact G|]. rewrite F1, updateHandHistories_length. exact Hl.
Qed.

Lemma check_squirt_fields ht :
  activeHandIndex (fst (checkSquirt ht)) = activeHandIndex ht /\
  handHistories (fst (checkSquirt ht)) = handHistories ht.
Proof.
  unfold checkSquirt.
  destruct (squirtDetected ht); [auto|].
  destruct (Nat.ltb _ _); [auto|].
  destruct (_ && _)%bool; auto.
Qed.

Lemma reachable_inv ht : ht_reachable ht -> ht_inv ht.
Proof.
  induction 1 as [| ht hands now _ IH | ht ps _ [Hi Hl] | ht hands ps _ [Hi Hl]
                  | ht c now _ IH | ht _ [Hi Hl] | ht _ IH].
  - split; [left; reflexivity | reflexivity].
  - apply process_inv, IH.
  - split; [exact Hi|]. simpl. rewrite updateHandHistories_length. exact Hl.
  - split; [apply select_index_ok, Hi|].
    destruct (select_fields ht hands ps) as [F _]. rewrite F. exact Hl.
  - exact IH.
  - destruct (check_squirt_fields ht) as [F1 F2]. split; [rewrite F1|rewrite F2]; assumption.
  - exact IH.
Qed.

Lemma js_index_in {A} (l : list A) (i : Z) :
  (0 <= i)%Z -> (Z.to_nat i < length l)%nat -> exists x, js_index l i = Some x /\ In x l.
Proof.
  intros H0 Hl. unfold js_index. destruct (Z.ltb_spec i 0) as [E|E]; [lia|].
  destruct (nth_error l (Z.to_nat i)) as [x|] eqn:N.
  - exists x. split; [reflexivity|]. eapply nth_error_In; eauto.
  - apply nth_error_None in N. lia.
Qed.

(** With a well-formed index, [selectActiveHand] on a non-empty list of
    hands returns one of them. *)
Lemma select_some ht hands ps :
  index_ok (activeHandIndex ht) -> hands <> [] ->
  exists h, sel_hand (snd (selectActiveHand ht hands ps)) = Some h /\ In h hands.
Proof.
  intros Hi Hne. unfold selectActiveHand.
  destruct (Nat.eqb_spec (length hands) 1) as [E|E].
  - destruct hands as [|h [|]]; simpl in E; try discriminate.
    exists h. split; [reflexivity | left; reflexivity].
  - cbn [snd sel_hand].
    destruct hands as [|h0 [|h1 rest]]; [congruence | simpl in E; lia |].
    destruct (choose_index_range (activeHandIndex ht)
               (nth 0 (map motion (handHistories ht)) 0)
               (nth 1 (map motion (handHistories ht)) 0) Hi) as [C|C];
      rewrite C; apply js_index_in; simpl length; lia.
Qed.

(** A tick with at least one detection resets [lostFrames], returns one of
    the detected hands and stores it as the last valid hand. *)
Lemma process_found ht hands now :
  index_ok (activeHandIndex ht) -> hands <> [] ->
  exists h, snd (processHandResult ht hands now) = Some h /\ In h hands /\
    lastValidHand (fst (processHandResult ht hands now)) = Some h /\
    lostFrames (fst (processHandResult ht hands now)) = 0%nat.
Proof.
  intros Hi Hne. unfold processHandResult.
  destruct hands as [|h0 rest]; [congruence|].
  cbv zeta.
  destruct (selectActiveHand _ (h0 :: rest) _) as [ht2 sel] eqn:E.
  match type of E with selectActiveHand ?h1 _ _ = _ =>
    destruct (select_some h1 (h0 :: rest) (map getHandCenter (h0 :: rest)) Hi Hne)
      as [h [Hs Hin]];
    pose proof (select_fields h1 (h0 :: rest) (map getHandCenter (h0 :: rest))) as F
  end.
  rewrite E in Hs, F. simpl in Hs, F. destruct F as [_ [F2 _]].
  exists h. simpl. repeat split; assumption.
Qed.

(** Within the persistence window, an empty tick serves the last valid hand. *)
Lemma empty_step ht h now :
  lastValidHand ht = Some h -> (S (lostFrames ht) <= maxLostFrames)%nat ->
  exists ht', processHandResult ht [] now = (ht', Some h) /\
    lastValidHand ht' = Some h /\ lastValidCenter ht' = lastValidCenter ht /\
    activeHandIndex ht' = activeHandIndex ht /\ lostFrames ht' = S (lostFrames ht).
Proof.
  intros Hv Hk. unfold processHandResult. rewrite Hv.
  rewrite (proj2 (Nat.leb_le _ _) Hk).
  eexists. split; [reflexivity|]. simpl. auto.
Qed.

Lemma empty_ticks_persist now h : forall k ht,
  lastValidHand ht = Some h -> (lostFrames ht + k <= maxLostFrames)%nat ->
  snd (empty_ticks ht k now) = repeat (Some h) k /\
  lastValidHand (fst (empty_ticks ht k now)) = Some h /\
  lastValidCenter (fst (empty_ticks ht k now)) = lastValidCenter ht /\
  activeHandIndex (fst (empty_ticks ht k now)) = activeHandIndex ht /\
  lostFrames (fst (empty_ticks ht k now)) = (lostFrames ht + k)%nat.
Proof.
  induction k as [|k IH]; intros ht Hv Hk; cbn [empty_ticks].
  - simpl. rewrite Nat.add_0_r. auto.
  - destruct (empty_step ht h now Hv) as [ht1 [Ep [V1 [C1 [A1 L1]]]]]; [lia|].
    rewrite Ep.
    destruct (IH ht1 V1) as [R1 [R2 [R3 [R4 R5]]]]; [lia|].
    destruct (empty_ticks ht1 k now) as [ht2 rs] eqn:E.
    simpl in *. rewrite R1. repeat split; try congruence. lia.
Qed.

Lemma empty_tick_reachable ht now : forall k,
  ht_reachable ht -> ht_reachable (fst (empty_ticks ht k now)).
Proof.
  intros k. revert ht. induction k as [|k IH]; intros ht H; cbn [empty_ticks]; [exact H|].
  pose proof (ht_process ht [] now H) as H1.
  destruct (processHandResult ht [] now) as [ht1 r] eqn:E.
  specialize (IH ht1 H1).
  destruct (empty_ticks ht1 k now). exact IH.
Qed.

(** Once [lostFrames] is past the window, every further empty tick returns
    no hand, keeps [lastHand] and [lastHandCenter] cleared and the stored
    valid hand and center untouched, and counts one more lost frame. *)
Lemma empty_ticks_expired now h : forall k ht,
  lastValidHand ht = Some h -> (maxLostFrames < lostFrames ht)%nat ->
  lastHand ht = None -> lastHandCenter ht = None ->
  snd (empty_ticks ht k now) = repeat None k /\
  lastHand (fst (empty_ticks ht k now)) = None /\
  lastHandCenter (fst (empty_ticks ht k now)) = None /\
  lastValidHand (fst (empty_ticks ht k now)) = Some h /\
  lastValidCenter (fst (empty_ticks ht k now)) = lastValidCenter ht /\
  lostFrames (fst (empty_ticks ht k now)) = (lostFrames ht + k)%nat.
Proof.
  induction k as [|k IH]; intros ht Hv Hk Hh Hc; cbn [empty_ticks].
  - cbn [fst snd repeat]. rewrite Nat.add_0_r. repeat split; assumption.
  - remember (processHandResult ht [] now) as p eqn:Ep.
    unfold processHandResult in Ep. rewrite Hv in Ep.
    destruct (Nat.leb_spec (S (lostFrames ht)) maxLostFrames) as [B|B]; [lia|].
    subst p.
    match goal with |- context [empty_ticks ?t k now] =>
      destruct (IH t) as [R1 [R2 [R3 [R4 [R5 R6]]]]]; cbn [lastValidHand lostFrames lastHand lastHandCenter];
        try solve [reflexivity | exact Hv | lia];
      destruct (empty_ticks t k now) as [ht2 rs] eqn:E end.
    cbn [fst snd lastValidCenter lostFrames] in *. rewrite R1.
    repeat split; try assumption; try reflexivity; lia.
Qed.

(** Past the persistence window, an empty tick returns no hand and clears
    [lastHand] and [lastHandCenter]. *)
Lemma empty_expire ht h now :
  lastValidHand ht = Some h -> lostFrames ht = maxLostFrames ->
  exists ht', processHandResult ht [] now = (ht', None) /\
    lastHand ht' = None /\ lastHandCenter ht' = None /\
    lastValidHand ht' = Some h /\ lastValidCenter ht' = lastValidCenter ht.
Proof.
  intros Hv Hl. unfold processHandResult. rewrite Hv, Hl. simpl.
  eexists. split; [reflexivity|]. simpl. auto.
Qed.

(** Case split on the boolean comparisons of rationals in the goal. *)
Lemma Qle_bool_false a b : Qle_bool a b = false -> b < a.
Proof.
  intro E. apply Qnot_le_lt. intro H. apply Qle_bool_iff in H. congruence.
Qed.

Lemma Qltb_false a b : Qltb a b = false -> b <= a.
Proof.
  intro E. apply Qnot_lt_le. intro H. apply Qltb_iff in H. congruence.
Qed.

Ltac qcases :=
  repeat match goal with
         | |- context [Qle_bool ?a ?b] =>
             let E := fresh "E" in
             destruct (Qle_bool a b) eqn:E;
             [apply Qle_bool_iff in E | apply Qle_bool_false in E]; cbn
         | |- context [Qltb ?a ?b] =>
             let E := fresh "E" in
             destruct (Qltb a b) eqn:E;
             [apply Qltb_iff in E | apply Qltb_false in E]; cbn
         end.

(** [selectActiveHand] with two hands. *)
Lemma select_two ht hands ps :
  length hands = 2%nat ->
  activeHandIndex (fst (selectActiveHand ht hands ps)) =
    choose_index (activeHandIndex ht) (nth 0 (map motion (handHistories ht)) 0)
                 (nth 1 (map motion (handHistories ht)) 0) /\
  sel_hand (snd (selectActiveHand ht hands ps)) =
    js_index hands (Z.min (choose_index (activeHandIndex ht)
                             (nth 0 (map motion (handHistories ht)) 0)
                             (nth 1 (map motion (handHistories ht)) 0)) 1).
Proof.
  intro H. unfold selectActiveHand. rewrite H. cbn. split; reflexivity.
Qed.

(** The loop of [getHandCenter] adds up the stable landmarks present. *)
Lemma center_loop_sums kps idx : forall sx sy n,
  let '(a, b, c) := center_loop kps idx sx sy n in
  a == sx + fold_right Qplus 0 (map px (present_at kps idx)) /\
  b == sy + fold_right Qplus 0 (map py (present_at kps idx)) /\
  c = (n + length (present_at kps idx))%nat.
Proof.
  induction idx as [|i idx IH]; intros sx sy n; simpl.
  - repeat split; try ring; lia.
  - destruct (nth_error kps i) as [[p|]|]; simpl;
      match goal with |- context [center_loop kps idx ?x ?y ?m] =>
        specialize (IH x y m); destruct (center_loop kps idx x y m) as [[a b] c]
      end;
      destruct IH as [H1 [H2 H3]]; unfold present_at in *;
      repeat split; try (rewrite H1; ring); try (rewrite H2; ring); try assumption; lia.
Qed.

End HandFacts.

(** ** Facts on the MotionDetector caps *)
Module CapFacts.
Import Motion MotionFacts Reach.

Lemma push_capped_length {A} cap (l : list A) x :
  (length l <= cap)%nat -> (length (push_capped cap l x) <= cap)%nat.
Proof.
  unfold push_capped. intro H.
  destruct (Nat.ltb_spec cap (length (l ++ [x]))) as [C|C]; [|exact C].
  destruct l as [|a l']; simpl in *; [lia|].
  rewrite length_app in *. simpl in *. lia.
Qed.

(** [push] then [shift] on overflow keeps the [cap] newest elements. *)
Lemma push_capped_fifo {A} cap (l : list A) x :
  (length l <= cap)%nat -> push_capped cap l x = slice_last cap (l ++ [x]).
Proof.
  unfold push_capped, slice_last. intro H. rewrite length_app. simpl.
  destruct (Nat.ltb_spec cap (length l + 1)).
  - replace (length l + 1 - cap)%nat with 1%nat by lia.
    destruct l; reflexivity.
  - replace (length l + 1 - cap)%nat with 0%nat by lia. reflexivity.
Qed.

Definition md_caps (s : MotionDetector) : Prop :=
  (length (positions s) <= maxPositions)%nat /\
  (length (velocityHistory s) <= maxVelocityHistory)%nat.

Lemma getVelocity_data s :
  positions (snd (getVelocity s)) = positions s /\
  (velocityHistory (snd (getVelocity s)) = velocityHistory s \/
   velocityHistory (snd (getVelocity s)) =
     push_capped maxVelocityHistory (velocityHistory s) (fst (getVelocity s))).
Proof.
  unfold getVelocity. destruct (Nat.ltb _ _); [auto|].
  destruct (match slice_last 4 (positions s) with
            | [] => _ | p :: rest => _ end); simpl; auto.
Qed.

Lemma getVelocity_caps s : md_caps s -> md_caps (snd (getVelocity s)).
Proof.
  intros [Hp Hv]. destruct (getVelocity_data s) as [E [E'|E']];
    split; rewrite ?E, ?E'; try assumption. apply push_capped_length, Hv.
Qed.

Lemma addPosition_caps s y now : md_caps s -> md_caps (addPosition s y now).
Proof.
  intros [Hp Hv]. split; [apply push_capped_length, Hp | exact Hv].
Qed.

Lemma update_caps s y now : md_caps s -> md_caps (fst (update s y now)).
Proof.
  intro H. destruct y as [y|]; [|exact H].
  pose proof (getVelocity_caps _ (addPosition_caps s y now H)) as H2.
  unfold update.
  destruct (getVelocity (addPosition s y now)) as [v s2] eqn:E.
  simpl in H2. destruct H2 as [Hp Hv].
  split_update; split; assumption.
Qed.

Lemma reachable_caps s : md_reachable s -> md_caps s.
Proof.
  induction 1.
  - split; simpl; lia.
  - apply update_caps; assumption.
  - apply addPosition_caps; assumption.
  - apply getVelocity_caps; assumption.
  - split; simpl; lia.
Qed.

End CapFacts.

(** ** Claims on the HandTracker and on the invariants *)
Module HandClaims.
Import Hands Reach HandScenarios HandFacts CapFacts.

(** C4 (as stated): after [maxLostFrames + 1] empty ticks the persisted
    [lastValidHand] is cleared.  It is not: it still holds the hand. *)
Lemma persisted_hand_not_cleared :
  lastValidHand
    (fst (empty_ticks (fst (processHandResult init [full_hand 100 200] 0)) 9 0)) <> None.
Proof. vm_compute. discriminate. Qed.

(** C4 (amended): after a tick with a detection (which returns a detected
    hand [h], stores it as [lastValidHand] and sets [lostFrames = 0]), each
    of the next [maxLostFrames = 8] ticks with no detection returns [h];
    the ninth returns no hand, clears [lastHand] and [lastHandCenter] and
    leaves [lostFrames = 9], while [lastValidHand] and [lastValidCenter]
    stay stored.  After any number [j] of further empty ticks, each of them
    returns no hand, [lastHand] and [lastHandCenter] stay cleared,
    [lastValidHand] and [lastValidCenter] stay stored and
    [lostFrames = 9 + j > 8]; a tick with a detection at that point sets
    [lostFrames = 0] and returns a detected hand, which becomes
    [lastValidHand]. *)
Theorem persistence_window ht hands now ht1 r :
  ht_reachable ht -> hands <> [] -> processHandResult ht hands now = (ht1, r) ->
  exists h, r = Some h /\ In h hands /\ lastValidHand ht1 = Some h /\
    lostFrames ht1 = 0%nat /\
    let '(ht8, rs) := empty_ticks ht1 8 now in
    rs = repeat (Some h) 8 /\
    let '(ht9, r9) := processHandResult ht8 [] now in
    r9 = None /\ lastHand ht9 = None /\ lastHandCenter ht9 = None /\
    lastValidHand ht9 = Some h /\ lastValidCenter ht9 = lastValidCenter ht1 /\
    lostFrames ht9 = 9%nat /\
    forall j now'',
      let '(htj, rsj) := empty_ticks ht9 j now'' in
      rsj = repeat None j /\ lastHand htj = None /\ lastHandCenter htj = None /\
      lastValidHand htj = Some h /\ lastValidCenter htj = lastValidCenter ht1 /\
      lostFrames htj = (9 + j)%nat /\
      forall hands' now', hands' <> [] ->
        exists h', snd (processHandResult htj hands' now') = Some h' /\ In h' hands' /\
          lastValidHand (fst (processHandResult htj hands' now')) = Some h' /\
          lostFrames (fst (processHandResult htj hands' now')) = 0%nat.
Proof.
  intros Hr Hne Hp.
  destruct (reachable_inv ht Hr) as [Hi _].
  destruct (process_found ht hands now Hi Hne) as [h [E1 [Hin [Hv Hl]]]].
  assert (Hr1 : ht_reachable ht1)
    by (replace ht1 with (fst (processHandResult ht hands now)) by (rewrite Hp; reflexivity);
        apply ht_process, Hr).
  rewrite Hp in E1, Hv, Hl. simpl in E1, Hv, Hl.
  exists h. split; [exact E1|]. split; [exact Hin|]. split; [exact Hv|]. split; [exact Hl|].
  destruct (empty_ticks_persist now h 8 ht1 Hv) as [R1 [R2 [R3 [_ R5]]]];
    [rewrite Hl; reflexivity|].
  pose proof (empty_tick_reachable ht1 now 8 Hr1) as Hr8.
  destruct (empty_ticks ht1 8 now) as [ht8 rs] eqn:E8. simpl in R1, R2, R3, R5, Hr8.
  split; [exact R1|].
  destruct (empty_expire ht8 h now R2) as [ht9 [E9 [N1 [N2 [N3 N4]]]]];
    [rewrite R5, Hl; reflexivity|].
  assert (L9 : lostFrames ht9 = 9%nat).
  { assert (F : ht9 = fst (processHandResult ht8 [] now)) by (rewrite E9; reflexivity).
    rewrite F. unfold processHandResult. rewrite R2. cbn -[Nat.leb].
    destruct (Nat.leb _ _); cbn; rewrite R5, Hl; reflexivity. }
  pose proof (ht_process ht8 [] now Hr8) as Hr9. rewrite E9 in Hr9. simpl in Hr9.
  rewrite E9.
  split; [reflexivity|]. split; [exact N1|]. split; [exact N2|]. split; [exact N3|].
  split; [congruence|]. split; [exact L9|].
  intros j now''.
  destruct (empty_ticks_expired now'' h j ht9 N3) as [T1 [T2 [T3 [T4 [T5 T6]]]]];
    [rewrite L9; unfold maxLostFrames; lia | exact N1 | exact N2 |].
  pose proof (empty_tick_reachable ht9 now'' j Hr9) as Hrj.
  destruct (empty_ticks ht9 j now'') as [htj rsj] eqn:Ej. cbn [fst snd] in *.
  split; [exact T1|]. split; [exact T2|]. split; [exact T3|]. split; [exact T4|].
  split; [congruence|]. split; [rewrite T6, L9; reflexivity|].
  intros hands' now' Hne'.
  destruct (reachable_inv htj Hrj) as [Hij _].
  exact (process_found htj hands' now' Hij Hne').
Qed.

Lemma persistence_window_witness :
  exists h, Some (full_hand 100 200) = Some h /\ In h [full_hand 100 200] /\
    lastValidHand (fst (processHandResult init [full_hand 100 200] 0)) = Some h /\
    lostFrames (fst (processHandResult init [full_hand 100 200] 0)) = 0%nat /\
    let '(ht8, rs) := empty_ticks (fst (processHandResult init [full_hand 100 200] 0)) 8 0 in
    rs = repeat (Some h) 8 /\
    let '(ht9, r9) := processHandResult ht8 [] 0 in
    r9 = None /\ lastHand ht9 = None /\ lastHandCenter ht9 = None /\
    lastValidHand ht9 = Some h /\
    lastValidCenter ht9 = lastValidCenter (fst (processHandResult init [full_hand 100 200] 0)) /\
    lostFrames ht9 = 9%nat /\
    forall j now'',
      let '(htj, rsj) := empty_ticks ht9 j now'' in
      rsj = repeat None j /\ lastHand htj = None /\ lastHandCenter htj = None /\
      lastValidHand htj = Some h /\
      lastValidCenter htj = lastValidCenter (fst (processHandResult init [full_hand 100 200] 0)) /\
      lostFrames htj = (9 + j)%nat /\
      forall hands' now', hands' <> [] ->
        exists h', snd (processHandResult htj hands' now') = Some h' /\ In h' hands' /\
          lastValidHand (fst (processHandResult htj hands' now')) = Some h' /\
          lostFrames (fst (processHandResult htj hands' now')) = 0%nat.
Proof.
  apply (persistence_window init [full_hand 100 200] 0
           (fst (processHandResult init [full_hand 100 200] 0)) (Some (full_hand 100 200))).
  - exact ht_init.
  - discriminate.
  - vm_compute. reflexivity.
Defined.

(** C6 (as stated): a slot whose entry is present but has no center has
    its history cleared.  It is kept: slot 0 keeps [[5]] here. *)
Lemma null_center_history_kept :
  nth 0 (updateHandHistories [[5]; [6]] [None; Some (pt 1 2)]) [] <> [].
Proof. vm_compute. discriminate. Qed.

(** C6 (amended): with two history slots, [updateHandHistories] keeps two
    slots; a slot [i] with an entry in [positions] appends that center's
    [y] (dropping the oldest when the history exceeds [historyLength = 10]),
    keeps its history unchanged when the entry is null, and a slot with no
    entry ([i >= positions.length]) is cleared to the empty history. *)
Theorem histories_update hh ps :
  length hh = 2%nat ->
  length (updateHandHistories hh ps) = 2%nat /\
  forall i, (i < 2)%nat ->
    nth i (updateHandHistories hh ps) [] =
      if Nat.ltb i (length ps) then
        match nth i ps None with
        | Some c => push_capped historyLength (nth i hh []) (py c)
        | None => nth i hh []
        end
      else [].
Proof.
  intro Hl. split; [rewrite updateHandHistories_length; exact Hl|].
  destruct hh as [|h0 [|h1 [|]]]; simpl in Hl; try discriminate.
  intros i Hi.
  destruct ps as [|p0 [|p1 [|p2 ps]]];
    destruct i as [|[|i]]; try lia;
    try destruct p0; try destruct p1; reflexivity.
Qed.

Lemma histories_update_witness :
  length [[150]; [250]] = 2%nat /\
  (length (updateHandHistories [[150]; [250]] [Some (pt 100 160)]) = 2%nat /\
   forall i, (i < 2)%nat ->
     nth i (updateHandHistories [[150]; [250]] [Some (pt 100 160)]) [] =
       if Nat.ltb i (length [Some (pt 100 160)]) then
         match nth i [Some (pt 100 160)] None with
         | Some c => push_capped historyLength (nth i [[150]; [250]] []) (py c)
         | None => nth i [[150]; [250]] []
         end
       else []).
Proof.
  split; [reflexivity|]. apply histories_update. reflexivity.
Defined.

(** The scenario of the spec: two detections fill both slots; a following
    tick with one detection grows slot 0 and clears slot 1. *)
Example histories_scenario :
  updateHandHistories [[]; []] [Some (pt 100 150); Some (pt 200 250)] = [[150]; [250]] /\
  updateHandHistories [[150]; [250]] [Some (pt 100 160)] = [[150; 160]; []].
Proof. split; reflexivity. Qed.

(** C7: with two hands, [selectActiveHand] keeps the active slot [a] when
    the other slot's motion variance is [14] against [10] (ratio 1.4),
    switches to the other slot when it is [16] against [10] (ratio 1.6),
    and with no active slot yet ([-1]) adopts the slot of higher variance. *)
Theorem hysteresis_selection :
  (forall ht hands ps (a : nat),
     length hands = 2%nat -> length (handHistories ht) = 2%nat -> (a < 2)%nat ->
     activeHandIndex ht = Z.of_nat a ->
     motion (nth a (handHistories ht) []) == 10 ->
     motion (nth (1 - a) (handHistories ht) []) == 14 ->
     activeHandIndex (fst (selectActiveHand ht hands ps)) = Z.of_nat a /\
     sel_hand (snd (selectActiveHand ht hands ps)) = nth_error hands a) /\
  (forall ht hands ps (a : nat),
     length hands = 2%nat -> length (handHistories ht) = 2%nat -> (a < 2)%nat ->
     activeHandIndex ht = Z.of_nat a ->
     motion (nth a (handHistories ht) []) == 10 ->
     motion (nth (1 - a) (handHistories ht) []) == 16 ->
     activeHandIndex (fst (selectActiveHand ht hands ps)) = Z.of_nat (1 - a) /\
     sel_hand (snd (selectActiveHand ht hands ps)) = nth_error hands (1 - a)) /\
  (forall ht hands ps (i : nat),
     length hands = 2%nat -> length (handHistories ht) = 2%nat -> (i < 2)%nat ->
     activeHandIndex ht = (-1)%Z ->
     motion (nth (1 - i) (handHistories ht) []) < motion (nth i (handHistories ht) []) ->
     activeHandIndex (fst (selectActiveHand ht hands ps)) = Z.of_nat i /\
     sel_hand (snd (selectActiveHand ht hands ps)) = nth_error hands i).
Proof.
  split; [|split];
    intros ht hands ps a Hh Hl Ha Hc; intros;
    destruct (select_two ht hands ps Hh) as [S1 S2]; rewrite S2, S1, Hc;
    destruct (handHistories ht) as [|h0 [|h1 [|]]]; simpl in Hl; try discriminate;
    destruct a as [|[|a]]; try lia; cbn [nth map Nat.sub] in *;
    unfold choose_index; qcases; try lra; split; reflexivity.
Qed.

(** The variances of C7 arise from real histories. *)
Example hysteresis_scenario :
  motion hist10 == 10 /\ motion hist14 == 14 /\ motion hist16 == 16 /\
  activeHandIndex (fst (selectActiveHand (tracker_with [hist10; hist14] 0)
                          [full_hand 0 0; full_hand 50 0] [None; None])) = 0%Z /\
  activeHandIndex (fst (selectActiveHand (tracker_with [hist10; hist16] 0)
                          [full_hand 0 0; full_hand 50 0] [None; None])) = 1%Z.
Proof. vm_compute. repeat split; reflexivity. Qed.

(** C8: [getHandCenter] returns none exactly when none of the landmarks
    0, 5, 9, 13, 17 is present, and otherwise the mean of the coordinates
    of those present. *)
Theorem hand_center_mean h :
  (getHandCenter h = None <-> stable_landmarks h = []) /\
  forall c, getHandCenter h = Some c ->
    px c == mean (map px (stable_landmarks h)) /\
    py c == mean (map py (stable_landmarks h)).
Proof.
  unfold getHandCenter, stable_landmarks, mean.
  pose proof (center_loop_sums (keypoints h) stable_indices 0 0 0) as H.
  destruct (center_loop (keypoints h) stable_indices 0 0 0) as [[a b] n].
  destruct H as [Ha [Hb Hn]]. rewrite Nat.add_0_l in Hn. rewrite !length_map.
  destruct (Nat.ltb_spec 0 n) as [P|P].
  - split.
    + split; [discriminate|]. intro E. rewrite E in Hn. simpl in Hn. lia.
    + intros c E. inversion E; subst c. cbn [px py]. rewrite <- Hn.
      rewrite Ha, Hb, !Qplus_0_l. split; reflexivity.
  - split.
    + split; [intros _|reflexivity].
      destruct (present_at (keypoints h) stable_indices); [reflexivity|simpl in Hn; lia].
    + intros c E. discriminate.
Qed.

End HandClaims.

(** ** The data-model invariants *)
Module Invariants.
Import Motion Hands Reach HandFacts CapFacts.

(** C9: in every reachable state the [MotionDetector] keeps at most
    [maxPositions = 10] positions and [maxVelocityHistory = 5] velocities,
    and a new element evicts the oldest one (the lists hold the newest
    elements); the [HandTracker] keeps [activeHandIndex] in {-1, 0, 1} and
    exactly two history slots; a tick with a detection resets [lostFrames]
    to [0]. *)
Theorem data_model_invariants :
  (forall s, md_reachable s ->
     (length (positions s) <= maxPositions)%nat /\
     (length (velocityHistory s) <= Motion.maxVelocityHistory)%nat /\
     (forall y now, exists p,
        positions (addPosition s y now) = slice_last maxPositions (positions s ++ [p])) /\
     (velocityHistory (snd (getVelocity s)) = velocityHistory s \/
      velocityHistory (snd (getVelocity s)) =
        slice_last Motion.maxVelocityHistory (velocityHistory s ++ [fst (getVelocity s)]))) /\
  (forall ht, ht_reachable ht ->
     (activeHandIndex ht = -1 \/ activeHandIndex ht = 0 \/ activeHandIndex ht = 1)%Z /\
     length (handHistories ht) = 2%nat) /\
  (forall ht hands now, hands <> [] ->
     lostFrames (fst (processHandResult ht hands now)) = 0%nat).
Proof.
  split; [|split].
  - intros s Hs. destruct (reachable_caps s Hs) as [Hp Hv].
    split; [exact Hp|]. split; [exact Hv|]. split.
    + intros y now. eexists. simpl. apply push_capped_fifo, Hp.
    + destruct (getVelocity_data s) as [_ [E|E]]; [left; exact E|right].
      rewrite E. apply push_capped_fifo, Hv.
  - intros ht H. exact (reachable_inv ht H).
  - intros ht hands now Hne. unfold processHandResult.
    destruct hands as [|h0 rest]; [congruence|]. cbv zeta.
    destruct (selectActiveHand _ (h0 :: rest) _) as [ht2 sel] eqn:E.
    match type of E with selectActiveHand ?h1 _ _ = _ =>
      pose proof (select_fields h1 (h0 :: rest) (map getHandCenter (h0 :: rest))) as F
    end.
    rewrite E in F. simpl in F. destruct F as [_ [F2 _]]. exact F2.
Qed.

End Invariants.

(** ** Further facts on the MotionDetector embedding *)
Module MotionMore.
Import Motion MotionFacts Reach CapFacts.

(** A non-null [update] is [addPosition], [getVelocity], then a change of
    the state-machine fields only. *)
Lemma update_shape s y now :
  exists st uf timer,
    fst (update s (Some y) now) =
      with_machine (snd (getVelocity (addPosition s y now))) st uf timer.
Proof.
  unfold update.
  destruct (getVelocity (addPosition s y now)) as [v s2].
  split_update; do 3 eexists; reflexivity.
Qed.

Lemma update_data s y now :
  positions (fst (update s (Some y) now)) = positions (addPosition s y now) /\
  smoothedY (fst (update s (Some y) now)) = smoothedY (addPosition s y now) /\
  velocityHistory (fst (update s (Some y) now)) =
    velocityHistory (snd (getVelocity (addPosition s y now))) /\
  currentVelocity (fst (update s (Some y) now)) =
    currentVelocity (snd (getVelocity (addPosition s y now))).
Proof.
  destruct (update_shape s y now) as [st [uf [timer E]]]. rewrite E. cbn.
  destruct (getVelocity_data (addPosition s y now)) as [P _].
  rewrite P. unfold getVelocity.
  destruct (Nat.ltb _ _); [repeat split|].
  destruct (match slice_last 4 _ with [] => _ | p :: rest => _ end); repeat split.
Qed.

(** The decision of a non-null [update] in terms of the velocity it
    computes. *)
Lemma update_decision s y now :
  let v := fst (getVelocity (addPosition s y now)) in
  snd (update s (Some y) now) =
    match state s with
    | MovingUp =>
        (Nat.leb requiredUpwardFrames (S (upwardFrames s)) && Qltb v (- jumpThreshold)
         && Nat.eqb (Nat.pred (cooldownTimer s)) 0 && Qltb v (-5))%bool
    | _ => false
    end.
Proof.
  cbv zeta. unfold update.
  pose proof (getVelocity_machine (addPosition s y now)) as [G1 [G2 G3]].
  destruct (getVelocity (addPosition s y now)) as [v s2]. cbn [fst snd] in *.
  rewrite G1, G2, G3. cbn [state cooldownTimer upwardFrames addPosition].
  destruct (state s); split_update; cbn [snd]; try reflexivity;
    rewrite ?andb_true_r, ?andb_false_r; congruence.
Qed.

(** The fields of the state machine keep their meaning. *)
Definition machine_ok (s : MotionDetector) : Prop :=
  match state s with
  | Idle => upwardFrames s = 0%nat
  | MovingUp => (1 <= upwardFrames s)%nat
  | Cooldown => (requiredUpwardFrames <= upwardFrames s)%nat
  end /\ (cooldownTimer s <= cooldownFrames)%nat.

Lemma update_machine_ok s y now : machine_ok s -> machine_ok (fst (update s y now)).
Proof.
  destruct y as [y|]; [|auto]. unfold machine_ok. intros [Hm Ht]. unfold update.
  pose proof (getVelocity_machine (addPosition s y now)) as [G1 [G2 G3]].
  destruct (getVelocity (addPosition s y now)) as [v s2]. cbn [fst snd] in *.
  rewrite G1, G2, G3. cbn [state cooldownTimer upwardFrames addPosition].
  destruct (state s);
    repeat match goal with |- context [if ?c then _ else _] => destruct c eqn:? end; cbn;
    repeat match goal with
           | H : (_ && _)%bool = true |- _ => apply andb_true_iff in H; destruct H
           | H : Nat.leb _ _ = true |- _ => apply Nat.leb_le in H
           end;
    unfold cooldownFrames, requiredUpwardFrames in *; split; lia.
Qed.

Lemma reachable_machine_ok s : md_reachable s -> machine_ok s.
Proof.
  unfold machine_ok.
  induction 1 as [| s y now _ IH | s y now _ IH | s _ IH | s _ _].
  - cbn. unfold cooldownFrames. split; lia.
  - apply update_machine_ok, IH.
  - exact IH.
  - pose proof (getVelocity_machine s) as [G1 [G2 G3]]. rewrite G1, G2, G3. exact IH.
  - cbn. unfold cooldownFrames. split; lia.
Qed.

(** The last element of a capped push is the pushed element. *)
Lemma rev_push_capped {A} cap (l : list A) x :
  (1 <= cap)%nat -> exists r, rev (push_capped cap l x) = x :: r.
Proof.
  intro Hc. unfold push_capped.
  destruct (Nat.ltb_spec cap (length (l ++ [x]))) as [C|C].
  - destruct l as [|a l']; cbn in C; [lia|].
    cbn [app tl]. rewrite rev_app_distr. eexists. reflexivity.
  - rewrite rev_app_distr. eexists. reflexivity.
Qed.

(** [smoothedY] is the [y] of the newest position, [currentVelocity] the
    newest velocity of the history (both [0]/[null] when empty). *)
Definition data_ok (s : MotionDetector) : Prop :=
  smoothedY s = match rev (positions s) with p :: _ => Some (s_y p) | [] => None end /\
  currentVelocity s = match rev (velocityHistory s) with v :: _ => v | [] => 0 end.

Lemma addPosition_data_ok s y now : data_ok s -> data_ok (addPosition s y now).
Proof.
  intros [H1 H2]. split; [|exact H2].
  cbn [positions smoothedY addPosition].
  match goal with |- _ = match rev (push_capped ?c ?l ?x) with _ => _ end =>
    destruct (rev_push_capped c l x) as [r E]; [unfold maxPositions; lia|]; rewrite E
  end. reflexivity.
Qed.

Lemma getVelocity_data_ok s : data_ok s -> data_ok (snd (getVelocity s)).
Proof.
  intros [H1 H2]. unfold getVelocity.
  destruct (Nat.ltb _ _); [split; assumption|].
  destruct (match slice_last 4 _ with [] => _ | p :: rest => _ end) as [tv tw].
  split; [exact H1|]. cbn [snd currentVelocity velocityHistory].
  match goal with |- _ = match rev (push_capped ?c ?l ?x) with _ => _ end =>
    destruct (rev_push_capped c l x) as [r E]; [unfold maxVelocityHistory; lia|]; rewrite E
  end. reflexivity.
Qed.

Lemma reachable_data_ok s : md_reachable s -> data_ok s.
Proof.
  induction 1 as [| s y now _ IH | s y now _ IH | s _ IH | s _ _].
  - split; reflexivity.
  - destruct y as [y|]; [|exact IH].
    destruct (update_shape s y now) as [st [uf [timer E]]]. rewrite E.
    exact (getVelocity_data_ok _ (addPosition_data_ok s y now IH)).
  - apply addPosition_data_ok, IH.
  - apply getVelocity_data_ok, IH.
  - split; reflexivity.
Qed.

End MotionMore.

(** ** The sign of the velocity *)
Module VelocityFacts.
Import Motion MotionFacts Reach CapFacts MotionMore.

Lemma chain_tl {A} (R : A -> A -> Prop) l : chain R l -> chain R (tl l).
Proof. destruct l as [|a [|b t]]; cbn; tauto. Qed.

Lemma chain_skipn {A} (R : A -> A -> Prop) n : forall l, chain R l -> chain R (skipn n l).
Proof.
  induction n as [|n IH]; intros l H; [exact H|].
  destruct l as [|a l]; [exact I|]. cbn [skipn]. apply IH.
  apply (chain_tl R (a :: l) H).
Qed.

Lemma chain_impl {A} (R R' : A -> A -> Prop) l :
  (forall a b, R a b -> R' a b) -> chain R l -> chain R' l.
Proof.
  intro HR. induction l as [|a [|b t] IH]; cbn; auto.
  intros [H1 H2]. split; [apply HR, H1 | apply IH, H2].
Qed.

Lemma chain_snoc {A} (R : A -> A -> Prop) l x :
  chain R l -> (forall p, hd_error (rev l) = Some p -> R p x) -> chain R (l ++ [x]).
Proof.
  induction l as [|a [|b t] IH]; intros H Hx; cbn.
  - exact I.
  - split; [apply Hx; reflexivity | exact I].
  - cbn in H. destruct H as [H1 H2]. split; [exact H1|].
    apply IH; [exact H2|]. intros p Hp. apply Hx.
    cbn [rev] in *. rewrite <- app_assoc.
    destruct (rev t) as [|q r]; cbn in *; exact Hp.
Qed.

Lemma chain_push_capped {A} (R : A -> A -> Prop) cap l x :
  chain R l -> (forall p, hd_error (rev l) = Some p -> R p x) ->
  chain R (push_capped cap l x).
Proof.
  intros H Hx. unfold push_capped. pose proof (chain_snoc R l x H Hx) as C.
  destruct (Nat.ltb _ _); [apply chain_tl|]; exact C.
Qed.

Lemma js_max_ge1 a : 1 <= js_max a 1.
Proof.
  unfold js_max. destruct (Qle_bool 1 a) eqn:E; [apply Qle_bool_iff, E|apply Qle_refl].
Qed.

Lemma weight_nonneg (i : nat) : 0 <= inject_Z (Z.of_nat i).
Proof. change 0 with (inject_Z 0). rewrite <- Zle_Qle. lia. Qed.

Lemma weight_pos (i : nat) : (1 <= i)%nat -> 0 < inject_Z (Z.of_nat i).
Proof. intro H. change 0 with (inject_Z 0). rewrite <- Zlt_Qlt. lia. Qed.

Definition rising (a b : sample) : Prop := s_y a <= s_y b.
Definition falling (a b : sample) : Prop := s_y b <= s_y a.
Definition falling_strict (a b : sample) : Prop := s_y b < s_y a.

(** A rising step contributes a non-negative term, a falling step a
    non-positive one. *)
Lemma term_nonneg dy dt (w : Q) :
  0 <= dy -> 0 <= w -> 0 <= dy / js_max dt 1 * (1667 # 100) * w.
Proof.
  intros Hy Hw. pose proof (js_max_ge1 dt) as Hm.
  apply Qmult_le_0_compat; [|exact Hw].
  apply Qmult_le_0_compat; [|unfold Qle; simpl; lia].
  apply Qle_shift_div_l; [lra|]. lra.
Qed.

Lemma term_nonpos dy dt (w : Q) :
  dy <= 0 -> 0 <= w -> dy / js_max dt 1 * (1667 # 100) * w <= 0.
Proof.
  intros Hy Hw.
  assert (H : 0 <= (- dy) / js_max dt 1 * (1667 # 100) * w)
    by (apply term_nonneg; lra).
  assert (E : (- dy) / js_max dt 1 * (1667 # 100) * w ==
              - (dy / js_max dt 1 * (1667 # 100) * w))
    by (unfold Qdiv; ring).
  rewrite E in H. lra.
Qed.

Lemma term_neg dy dt (w : Q) :
  dy < 0 -> 0 < w -> dy / js_max dt 1 * (1667 # 100) * w < 0.
Proof.
  intros Hy Hw. pose proof (js_max_ge1 dt) as Hm.
  assert (D : dy / js_max dt 1 < 0) by (apply Qlt_shift_div_r; lra).
  assert (E : dy / js_max dt 1 * (1667 # 100) * w ==
              - ((- (dy / js_max dt 1)) * ((1667 # 100) * w))) by ring.
  rewrite E.
  assert (0 < (- (dy / js_max dt 1)) * ((1667 # 100) * w)); [|lra].
  apply Qmult_lt_0_compat; [lra|]. apply Qmult_lt_0_compat; [reflexivity|exact Hw].
Qed.

Lemma loop_rising i prev rest tv tw :
  chain rising (prev :: rest) ->
  tv <= fst (velocity_loop i prev rest tv tw) /\ tw <= snd (velocity_loop i prev rest tv tw).
Proof.
  revert i prev tv tw. induction rest as [|cur rest IH]; intros i prev tv tw H.
  - cbn. lra.
  - destruct H as [H1 H2]. cbn [velocity_loop].
    match goal with |- context [velocity_loop (S i) cur rest ?a ?b] =>
      destruct (IH (S i) cur a b H2) as [A B] end.
    pose proof (weight_nonneg i).
    unfold rising in H1.
    pose proof (term_nonneg (s_y cur - s_y prev) (s_time cur - s_time prev)
                  (inject_Z (Z.of_nat i))) as T.
    split; lra.
Qed.

Lemma loop_falling i prev rest tv tw :
  chain falling (prev :: rest) ->
  fst (velocity_loop i prev rest tv tw) <= tv /\ tw <= snd (velocity_loop i prev rest tv tw).
Proof.
  revert i prev tv tw. induction rest as [|cur rest IH]; intros i prev tv tw H.
  - cbn. lra.
  - destruct H as [H1 H2]. cbn [velocity_loop].
    match goal with |- context [velocity_loop (S i) cur rest ?a ?b] =>
      destruct (IH (S i) cur a b H2) as [A B] end.
    pose proof (weight_nonneg i).
    unfold falling in H1.
    pose proof (term_nonpos (s_y cur - s_y prev) (s_time cur - s_time prev)
                  (inject_Z (Z.of_nat i))) as T.
    split; lra.
Qed.

Lemma loop_falling_strict prev cur rest tv tw :
  chain falling_strict (prev :: cur :: rest) -> tv <= 0 -> 0 <= tw ->
  fst (velocity_loop 1 prev (cur :: rest) tv tw) < 0 /\
  0 < snd (velocity_loop 1 prev (cur :: rest) tv tw).
Proof.
  intros [H1 H2] Hv Hw. cbn [velocity_loop].
  pose proof (chain_impl falling_strict falling (cur :: rest)
                (fun a b (h : falling_strict a b) => Qlt_le_weak _ _ h) H2) as H2'.
  destruct (loop_falling 2 cur rest
              (tv + (s_y cur - s_y prev) / js_max (s_time cur - s_time prev) 1 * (1667 # 100)
                    * inject_Z (Z.of_nat 1))
              (tw + inject_Z (Z.of_nat 1)) H2') as [A B].
  unfold falling_strict in H1.
  pose proof (term_neg (s_y cur - s_y prev) (s_time cur - s_time prev)
                (inject_Z (Z.of_nat 1))) as T.
  assert (W : 0 < inject_Z (Z.of_nat 1)) by (apply weight_pos; lia).
  split; lra.
Qed.

Lemma slice_last_two {A} (l : list A) :
  (2 <= length l)%nat -> exists a b r, slice_last 4 l = a :: b :: r.
Proof.
  intro H. unfold slice_last.
  assert (L : length (skipn (length l - 4) l) = (length l - (length l - 4))%nat)
    by apply length_skipn.
  destruct (skipn (length l - 4) l) as [|a [|b r]]; cbn in L; try lia. eauto.
Qed.

Lemma getVelocity_rising s :
  chain rising (positions s) -> 0 <= fst (getVelocity s).
Proof.
  intro H. unfold getVelocity.
  destruct (Nat.ltb_spec (length (positions s)) 2) as [L|L]; [apply Qle_refl|].
  pose proof (chain_skipn rising (length (positions s) - 4) _ H) as C.
  destruct (slice_last_two (positions s) L) as [a [b [r E]]].
  unfold slice_last in E. unfold slice_last. rewrite E in *.
  destruct (loop_rising 1 a (b :: r) 0 0 C) as [A B].
  destruct (velocity_loop 1 a (b :: r) 0 0) as [tv tw]. cbn [fst snd] in *.
  destruct (Qltb 0 tw) eqn:T; [|apply Qle_refl].
  apply Qltb_iff in T. apply Qle_shift_div_l; [exact T|]. lra.
Qed.

Lemma getVelocity_falling_strict s :
  (2 <= length (positions s))%nat -> chain falling_strict (positions s) ->
  fst (getVelocity s) < 0.
Proof.
  intros L H. unfold getVelocity.
  destruct (Nat.ltb_spec (length (positions s)) 2) as [L'|_]; [lia|].
  pose proof (chain_skipn falling_strict (length (positions s) - 4) _ H) as C.
  destruct (slice_last_two (positions s) L) as [a [b [r E]]].
  unfold slice_last in E. unfold slice_last. rewrite E in *.
  destruct (loop_falling_strict a b r 0 0 C) as [A B]; try apply Qle_refl.
  destruct (velocity_loop 1 a (b :: r) 0 0) as [tv tw]. cbn [fst snd] in *.
  destruct (Qltb 0 tw) eqn:T.
  - apply Qlt_shift_div_r; [exact B|]. lra.
  - apply HandFacts.Qltb_false in T. lra.
Qed.

End VelocityFacts.

(** ** A hand moving down *)
Module DescentFacts.
Import Motion MotionFacts Reach CapFacts MotionMore VelocityFacts.

(** The positions rise (the hand moves down the screen), the newest one is
    [smoothedY], and [smoothedY] is at most the last raw sample [r]. *)
Definition desc_inv (s : MotionDetector) (r : Q) : Prop :=
  chain rising (positions s) /\
  (forall p, hd_error (rev (positions s)) = Some p -> smoothedY s = Some (s_y p)) /\
  (forall sm, smoothedY s = Some sm -> sm <= r).

Lemma desc_inv_init r : desc_inv init r.
Proof. split; [exact I|]. split; [discriminate|discriminate]. Qed.

Lemma addPosition_desc s r y now :
  desc_inv s r -> r <= y -> desc_inv (addPosition s y now) y.
Proof.
  intros [C [L M]] Hy. unfold desc_inv, addPosition. cbn [positions smoothedY].
  set (sm := match smoothedY s with
             | None => y
             | Some p => smoothingFactor * y + (1 - smoothingFactor) * p end).
  assert (Hsm : sm <= y).
  { subst sm. destruct (smoothedY s) as [p|] eqn:E; [|apply Qle_refl].
    specialize (M p eq_refl). unfold smoothingFactor. lra. }
  split; [|split].
  - apply chain_push_capped; [exact C|]. intros p Hp. unfold rising. cbn [s_y].
    specialize (L p Hp). subst sm. rewrite L.
    specialize (M (s_y p) L). unfold smoothingFactor. lra.
  - intros p Hp.
    destruct (rev_push_capped maxPositions (positions s) {| s_y := sm; s_time := now |})
      as [r' E]; [unfold maxPositions; lia|].
    rewrite E in Hp. cbn in Hp. inversion Hp. reflexivity.
  - intros sm' E. inversion E. subst sm'. exact Hsm.
Qed.

Lemma update_desc s r y now :
  desc_inv s r -> r <= y ->
  desc_inv (fst (update s (Some y) now)) y /\ snd (update s (Some y) now) = false.
Proof.
  intros H Hy. pose proof (addPosition_desc s r y now H Hy) as H1.
  destruct (update_data s y now) as [E1 [E2 _]].
  split.
  - unfold desc_inv. rewrite E1, E2. exact H1.
  - rewrite update_decision.
    pose proof (getVelocity_rising (addPosition s y now) (proj1 H1)) as V.
    destruct (state s); try reflexivity.
    destruct (Qltb (fst (getVelocity (addPosition s y now))) (- jumpThreshold)) eqn:T.
    + apply Qltb_iff in T. unfold jumpThreshold in T. lra.
    + rewrite andb_false_r. reflexivity.
Qed.

Lemma run_desc ys : forall s r,
  desc_inv s r -> chain Qle (r :: map fst ys) -> Forall (fun b => b = false) (run s ys).
Proof.
  induction ys as [|[y now] rest IH]; intros s r H C; cbn [run]; [constructor|].
  destruct C as [Hy C]. cbn [fst] in Hy.
  destruct (update_desc s r y now H Hy) as [H1 B].
  destruct (update s (Some y) now) as [s' b]. cbn [fst snd] in H1, B.
  constructor; [exact B|]. apply (IH s' y H1 C).
Qed.

End DescentFacts.

(** ** Additional properties of the MotionDetector *)
Module MotionExtras.
Import Motion MotionFacts Scenarios Reach CapFacts MotionMore VelocityFacts DescentFacts.

(** X1: in every reachable state the state machine's fields agree with its
    state ([upwardFrames] is [0] in [idle], at least [1] in [moving_up] and
    at least [requiredUpwardFrames = 2] in [cooldown]), the cooldown timer
    never exceeds [cooldownFrames = 10], [smoothedY] is the [y] of the
    newest position ([null] exactly when there is none), and
    [currentVelocity] is the newest entry of [velocityHistory] ([0] when
    it is empty). *)
Theorem detector_state_invariants s :
  md_reachable s ->
  match state s with
  | Idle => upwardFrames s = 0%nat
  | MovingUp => (1 <= upwardFrames s)%nat
  | Cooldown => (requiredUpwardFrames <= upwardFrames s)%nat
  end /\
  (cooldownTimer s <= cooldownFrames)%nat /\
  smoothedY s = match rev (positions s) with p :: _ => Some (s_y p) | [] => None end /\
  currentVelocity s = match rev (velocityHistory s) with v :: _ => v | [] => 0 end.
Proof.
  intro H. destruct (reachable_machine_ok s H) as [M T].
  destruct (reachable_data_ok s H) as [D1 D2].
  repeat split; assumption.
Qed.

Lemma md_after_jump_reachable : md_reachable md_after_jump.
Proof.
  unfold md_after_jump, md_before_jump. repeat apply md_update. apply md_init.
Qed.

Lemma detector_state_invariants_witness :
  md_reachable md_after_jump /\
  (match state md_after_jump with
   | Idle => upwardFrames md_after_jump = 0%nat
   | MovingUp => (1 <= upwardFrames md_after_jump)%nat
   | Cooldown => (requiredUpwardFrames <= upwardFrames md_after_jump)%nat
   end /\
   (cooldownTimer md_after_jump <= cooldownFrames)%nat /\
   smoothedY md_after_jump =
     match rev (positions md_after_jump) with p :: _ => Some (s_y p) | [] => None end /\
   currentVelocity md_after_jump =
     match rev (velocityHistory md_after_jump) with v :: _ => v | [] => 0 end).
Proof.
  split; [exact md_after_jump_reachable|].
  apply detector_state_invariants. exact md_after_jump_reachable.
Defined.

(** X2: from a reachable state, a non-null [update(y)] returns [true]
    exactly when the detector is in [moving_up], the velocity computed
    after adding [y] is below [-jumpThreshold = -10], and the cooldown
    timer reads at most [1] before the call (so [0] after its decrement). *)
Theorem jump_condition s y now :
  md_reachable s ->
  snd (update s (Some y) now) = true <->
  state s = MovingUp /\ fst (getVelocity (addPosition s y now)) < - jumpThreshold /\
  (cooldownTimer s <= 1)%nat.
Proof.
  intro H. destruct (reachable_machine_ok s H) as [M _].
  rewrite update_decision.
  set (v := fst (getVelocity (addPosition s y now))).
  destruct (state s).
  - split; [discriminate|]. intros [E _]; discriminate.
  - split.
    + intro B. repeat (apply andb_true_iff in B; destruct B as [B ?]).
      repeat match goal with
             | H : Qltb _ _ = true |- _ => apply Qltb_iff in H
             | H : Nat.eqb _ _ = true |- _ => apply Nat.eqb_eq in H
             end.
      split; [reflexivity|]. split; [assumption|]. lia.
    + intros [_ [Hv Ht]].
      assert (L : Nat.leb requiredUpwardFrames (S (upwardFrames s)) = true)
        by (apply Nat.leb_le; unfold requiredUpwardFrames; lia).
      assert (V1 : Qltb v (- jumpThreshold) = true) by (apply Qltb_iff; exact Hv).
      assert (V2 : Qltb v (-5) = true)
        by (apply Qltb_iff; unfold jumpThreshold in Hv; lra).
      assert (T : Nat.eqb (Nat.pred (cooldownTimer s)) 0 = true)
        by (apply Nat.eqb_eq; lia).
      rewrite L, V1, V2, T. reflexivity.
  - split; [discriminate|]. intros [E _]; discriminate.
Qed.

Lemma md_before_jump_reachable : md_reachable md_before_jump.
Proof. unfold md_before_jump. repeat apply md_update. apply md_init. Qed.

Lemma jump_condition_witness :
  md_reachable md_before_jump /\
  (snd (update md_before_jump (Some 140) (tick 2)) = true <->
   state md_before_jump = MovingUp /\
   fst (getVelocity (addPosition md_before_jump 140 (tick 2))) < - jumpThreshold /\
   (cooldownTimer md_before_jump <= 1)%nat).
Proof.
  split; [exact md_before_jump_reachable|].
  apply jump_condition. exact md_before_jump_reachable.
Defined.

(** X3: a fresh detector, or one just reset, never returns [true] on
    either of its first two non-null samples, whatever they are: the first
    sample gives velocity [0], and the second call starts in [idle]. *)
Theorem no_jump_on_first_two_samples y1 t1 y2 t2 rest :
  firstn 2 (run init ((y1, t1) :: (y2, t2) :: rest)) = [false; false] /\
  forall s, firstn 2 (run (reset s) ((y1, t1) :: (y2, t2) :: rest)) = [false; false].
Proof.
  assert (E : firstn 2 (run init ((y1, t1) :: (y2, t2) :: rest)) = [false; false]).
  { cbn [run].
    change (update init (Some y1) t1)
      with (with_machine (snd (getVelocity (addPosition init y1 t1))) Idle 0 0, false).
    cbv beta iota.
    pose proof (update_decision
                  (with_machine (snd (getVelocity (addPosition init y1 t1))) Idle 0 0)
                  y2 t2) as D.
    cbn [state with_machine] in D.
    destruct (update (with_machine (snd (getVelocity (addPosition init y1 t1))) Idle 0 0)
                (Some y2) t2) as [s2 b2].
    cbn [snd] in D. subst b2. reflexivity. }
  split; [exact E|]. intro s. rewrite run_reset_init. exact E.
Qed.

(** X4: the sign of [getVelocity()] follows the smoothed positions,
    whatever their timestamps (the time step is clamped to at least 1 ms):
    if no position is above the one before it (the hand moving down the
    screen or still) the velocity is [>= 0]; with at least two positions
    each strictly above the one before it (the hand moving up) it is
    [< 0]. *)
Theorem velocity_sign :
  (forall s, chain (fun a b => s_y a <= s_y b) (positions s) -> 0 <= fst (getVelocity s)) /\
  (forall s, (2 <= length (positions s))%nat ->
     chain (fun a b => s_y b < s_y a) (positions s) -> fst (getVelocity s) < 0).
Proof.
  split.
  - intros s H. apply getVelocity_rising, H.
  - intros s L H. apply getVelocity_falling_strict; assumption.
Qed.

(** X5: a fresh or reset detector fed raw samples that never decrease (the
    hand moving down the screen or holding still) never returns [true],
    whatever the timestamps. *)
Theorem downward_motion_never_jumps ys :
  chain Qle (map fst ys) ->
  Forall (fun b => b = false) (run init ys) /\
  forall s, Forall (fun b => b = false) (run (reset s) ys).
Proof.
  intro C.
  assert (H : Forall (fun b => b = false) (run init ys)).
  { destruct ys as [|[y now] rest]; [constructor|].
    apply (run_desc _ init y (desc_inv_init y)).
    split; [apply Qle_refl | exact C]. }
  split; [exact H|]. intro s. rewrite run_reset_init. exact H.
Qed.

Lemma downward_motion_never_jumps_witness :
  chain Qle (map fst [(60, tick 0); (100, tick 1); (140, tick 2); (140, tick 3); (200, tick 3)]) /\
  (Forall (fun b => b = false)
     (run init [(60, tick 0); (100, tick 1); (140, tick 2); (140, tick 3); (200, tick 3)]) /\
   forall s, Forall (fun b => b = false)
     (run (reset s) [(60, tick 0); (100, tick 1); (140, tick 2); (140, tick 3); (200, tick 3)])).
Proof.
  assert (C : chain Qle (map fst [(60, tick 0); (100, tick 1); (140, tick 2);
                                  (140, tick 3); (200, tick 3)]))
    by (cbn; repeat split; unfold Qle; cbn; lia).
  split; [exact C|]. apply downward_motion_never_jumps. exact C.
Defined.

End MotionExtras.

(** ** Further facts on the HandTracker embedding *)
Module HandMore.
Import Hands Reach HandFacts CapFacts VelocityFacts.

Lemma select_keeps ht hands ps :
  let ht' := fst (selectActiveHand ht hands ps) in
  lastHand ht' = lastHand ht /\ lastHandCenter ht' = lastHandCenter ht /\
  tvelocityHistory ht' = tvelocityHistory ht /\ squirtDetected ht' = squirtDetected ht.
Proof.
  unfold selectActiveHand. destruct (Nat.eqb (length hands) 1); cbn; auto.
Qed.

Lemma js_index_map {A B} (f : A -> option B) (l : list A) i :
  js_index_opt (map f l) i = match js_index l i with Some x => f x | None => None end.
Proof.
  unfold js_index_opt, js_index. destruct (Z.ltb i 0); [reflexivity|].
  rewrite nth_error_map. destruct (nth_error l (Z.to_nat i)); reflexivity.
Qed.

(** The center returned by [selectActiveHand] is the center of the hand it
    returns. *)
Lemma select_center ht hands :
  sel_center (snd (selectActiveHand ht hands (map getHandCenter hands))) =
  match sel_hand (snd (selectActiveHand ht hands (map getHandCenter hands))) with
  | Some h => getHandCenter h
  | None => None
  end.
Proof.
  unfold selectActiveHand. destruct (Nat.eqb (length hands) 1);
    cbn [snd sel_center sel_hand]; apply js_index_map.
Qed.

(** What [processHandResult] does besides choosing a hand. *)
Lemma process_fields ht hands now :
  let ht' := fst (processHandResult ht hands now) in
  squirtDetected ht' = squirtDetected ht /\
  (tvelocityHistory ht' = tvelocityHistory ht \/
   exists c, tvelocityHistory ht' = trackVelocity (tvelocityHistory ht) c now) /\
  lastHand ht' = snd (processHandResult ht hands now) /\
  (hands <> [] -> lastValidHand ht' = snd (processHandResult ht hands now) /\
     lastHandCenter ht' = lastValidCenter ht' /\
     lastValidCenter ht' =
       match snd (processHandResult ht hands now) with
       | Some h => getHandCenter h
       | None => None
       end).
Proof.
  unfold processHandResult. destruct hands as [|h0 rest].
  - destruct (lastValidHand ht); [destruct (Nat.leb _ _)|]; cbn;
      (split; [reflexivity|]; split; [left; reflexivity|]; split; [reflexivity|congruence]).
  - cbv zeta.
    pose proof (select_center
      {| lastHand := lastHand ht; lastHandCenter := lastHandCenter ht;
         handHistories := updateHandHistories (handHistories ht)
                            (map getHandCenter (h0 :: rest));
         activeHandIndex := activeHandIndex ht; lostFrames := 0;
         lastValidCenter := lastValidCenter ht; lastValidHand := lastValidHand ht;
         tvelocityHistory := tvelocityHistory ht; squirtDetected := squirtDetected ht |}
      (h0 :: rest)) as SC.
    destruct (selectActiveHand _ (h0 :: rest) _) as [ht2 sel] eqn:E.
    match type of E with selectActiveHand ?h1 _ _ = _ =>
      pose proof (select_keeps h1 (h0 :: rest) (map getHandCenter (h0 :: rest))) as K
    end.
    rewrite E in K. cbn in K, SC. destruct K as [_ [_ [K3 K4]]].
    cbn. split; [exact K4|]. split; [right; exists (sel_center sel); rewrite K3; reflexivity|].
    split; [reflexivity|]. intros _. split; [reflexivity|]. split; [reflexivity|]. exact SC.
Qed.

(** The centers stored are the centers of the hands stored. *)
Definition centers_ok (ht : HandTracker) : Prop :=
  lastHandCenter ht = match lastHand ht with Some h => getHandCenter h | None => None end /\
  lastValidCenter ht = match lastValidHand ht with Some h => getHandCenter h | None => None end.

Lemma process_centers_ok ht hands now :
  centers_ok ht -> centers_ok (fst (processHandResult ht hands now)).
Proof.
  intros [C1 C2].
  destruct hands as [|h0 rest] eqn:Eh.
  - unfold processHandResult.
    destruct (lastValidHand ht) as [vh|] eqn:V; [destruct (Nat.leb _ _)|];
      split; cbn; try rewrite V; auto.
  - rewrite <- Eh.
    destruct (process_fields ht hands now) as [_ [_ [L H]]].
    destruct H as [H1 [H2 H3]]; [rewrite Eh; discriminate|].
    split; [rewrite L, H2 | rewrite H1]; exact H3.
Qed.

Lemma reachable_centers_ok ht : ht_reachable ht -> centers_ok ht.
Proof.
  induction 1 as [| ht hands now _ IH | ht ps _ IH | ht hands ps _ IH
                  | ht c now _ IH | ht _ IH | ht _ IH].
  - split; reflexivity.
  - apply process_centers_ok, IH.
  - exact IH.
  - destruct (select_keeps ht hands ps) as [K1 [K2 _]].
    destruct (select_fields ht hands ps) as [_ [_ [F3 [F4 _]]]].
    unfold centers_ok. rewrite K1, K2, F3, F4. exact IH.
  - exact IH.
  - unfold checkSquirt.
    destruct (squirtDetected ht); [exact IH|].
    destruct (Nat.ltb _ _); [exact IH|].
    destruct (_ && _)%bool; exact IH.
  - exact IH.
Qed.

(** The stored velocity samples: at most [maxVelocityHistory = 5] of them,
    each one's velocity is the drop in [y] from the one before, and while
    the history has not yet overflowed the first one has velocity [0]. *)
Definition vh_ok (vh : list vsample) : Prop :=
  (length vh <= maxVelocityHistory)%nat /\
  chain (fun a b => v_velocity b = v_y a - v_y b) vh /\
  ((length vh < maxVelocityHistory)%nat ->
     forall e, hd_error vh = Some e -> v_velocity e = 0).

Lemma trackVelocity_ok vh c now : vh_ok vh -> vh_ok (trackVelocity vh c now).
Proof.
  intros [L [C Z]]. destruct c as [c|]; [|split; [exact L|split; assumption]].
  cbn [trackVelocity].
  set (entry := match rev vh with
                | last :: _ => {| v_y := py c; v_velocity := v_y last - py c; v_time := now |}
                | [] => {| v_y := py c; v_velocity := 0; v_time := now |}
                end).
  split; [|split].
  - apply push_capped_length, L.
  - apply chain_push_capped; [exact C|]. intros p Hp. subst entry.
    destruct (rev vh) as [|q r]; cbn in Hp; [discriminate|].
    inversion Hp. reflexivity.
  - unfold maxVelocityHistory in *. intros Hl e He. unfold push_capped in *.
    destruct (Nat.ltb_spec 5 (length (vh ++ [entry]))) as [Hc|Hc].
    + exfalso. rewrite length_app in Hc.
      destruct vh as [|e0 vh']; cbn [length tl app] in Hc, Hl; [lia|].
      rewrite length_app in Hl. cbn [length] in Hl. lia.
    + destruct vh as [|e0 vh'].
      * cbn in He. inversion He. reflexivity.
      * cbn in He. inversion He. subst e.
        apply Z; [|reflexivity]. rewrite length_app in Hl. cbn [length] in Hl |- *. lia.
Qed.

Lemma reachable_vh_ok ht : ht_reachable ht -> vh_ok (tvelocityHistory ht).
Proof.
  induction 1 as [| ht hands now _ IH | ht ps _ IH | ht hands ps _ IH
                  | ht c now _ IH | ht _ IH | ht _ IH].
  - split; [cbn; unfold maxVelocityHistory; lia|]. split; [exact I|]. discriminate.
  - destruct (process_fields ht hands now) as [_ [[E|[c E]] _]]; rewrite E;
      [exact IH | apply trackVelocity_ok, IH].
  - exact IH.
  - destruct (select_keeps ht hands ps) as [_ [_ [K _]]]. rewrite K. exact IH.
  - apply trackVelocity_ok, IH.
  - unfold checkSquirt.
    destruct (squirtDetected ht); [exact IH|].
    destruct (Nat.ltb _ _); [exact IH|].
    destruct (_ && _)%bool; exact IH.
  - split; [cbn; unfold maxVelocityHistory; lia|]. split; [exact I|]. discriminate.
Qed.

(** Every history slot holds at most [historyLength] samples. *)
Lemma Forall_update_nth {A} (P : A -> Prop) f i l :
  Forall P l -> (forall x, P x -> P (f x)) -> Forall P (update_nth i f l).
Proof.
  intros H Hf. revert i. induction H as [|x l Hx H IH]; intros [|i]; cbn.
  - constructor.
  - constructor.
  - constructor; [apply Hf, Hx | exact H].
  - constructor; [exact Hx | apply IH].
Qed.

Lemma updateHandHistories_caps hh ps :
  Forall (fun h => (length h <= historyLength)%nat) hh ->
  Forall (fun h => (length h <= historyLength)%nat) (updateHandHistories hh ps).
Proof.
  intro H. unfold updateHandHistories.
  assert (P : forall ps i hh, Forall (fun h => (length h <= historyLength)%nat) hh ->
              Forall (fun h => (length h <= historyLength)%nat) (push_loop i ps hh)).
  { induction ps0 as [|p ps' IH]; intros i hh0 H0; cbn [push_loop]; [exact H0|].
    destruct (Nat.ltb i 2); [|exact H0].
    destruct p; apply IH; [|exact H0].
    apply Forall_update_nth; [exact H0|]. intros x Hx. apply push_capped_length, Hx. }
  generalize (P ps 0%nat hh H). generalize (push_loop 0 ps hh).
  generalize (seq (length ps) (2 - length ps)).
  induction l as [|i l IH]; intros acc Hacc; cbn; [exact Hacc|].
  apply IH. apply Forall_update_nth; [exact Hacc|]. intros; cbn; lia.
Qed.

Lemma reachable_history_caps ht :
  ht_reachable ht -> Forall (fun h => (length h <= historyLength)%nat) (handHistories ht).
Proof.
  induction 1 as [| ht hands now _ IH | ht ps _ IH | ht hands ps _ IH
                  | ht c now _ IH | ht _ IH | ht _ IH].
  - repeat constructor.
  - unfold processHandResult. destruct hands as [|h0 rest].
    + destruct (lastValidHand ht); [destruct (Nat.leb _ _)|]; exact IH.
    + cbv zeta.
      destruct (selectActiveHand _ (h0 :: rest) _) as [ht2 sel] eqn:E.
      match type of E with selectActiveHand ?h1 _ _ = _ =>
        pose proof (select_fields h1 (h0 :: rest) (map getHandCenter (h0 :: rest))) as F
      end.
      rewrite E in F. cbn [fst] in F. destruct F as [F1 _].
      cbn [fst handHistories]. rewrite F1. cbn [handHistories].
      apply updateHandHistories_caps, IH.
  - apply updateHandHistories_caps, IH.
  - destruct (select_fields ht hands ps) as [F _]. rewrite F. exact IH.
  - exact IH.
  - destruct (check_squirt_fields ht) as [_ F]. rewrite F. exact IH.
  - exact IH.
Qed.

(** The motion score is a variance. *)
Lemma square_nonneg (a : Q) : 0 <= a * a.
Proof.
  destruct (Qlt_le_dec a 0) as [H|H].
  - setoid_replace (a * a) with ((- a) * (- a)) by ring.
    apply Qmult_le_0_compat; lra.
  - apply Qmult_le_0_compat; exact H.
Qed.

Lemma motion_nonneg h : 0 <= motion h.
Proof.
  unfold motion. destruct (Nat.ltb _ _); [apply Qle_refl|].
  set (recent := slice_last 5 h).
  set (n := inject_Z (Z.of_nat (length recent))).
  set (m := Qsum recent / n).
  assert (F : forall l acc, 0 <= acc ->
                0 <= fold_left (fun a b => a + (b - m) * (b - m)) l acc).
  { induction l as [|b l IH]; intros acc H; cbn; [exact H|].
    apply IH. pose proof (square_nonneg (b - m)). lra. }
  unfold Qdiv. apply Qmult_le_0_compat.
  - apply F, Qle_refl.
  - apply Qinv_le_0_compat, weight_nonneg.
Qed.

End HandMore.

(** ** Lemmas for the pipeline *)
Module PipelineFacts.
Import Motion Hands Reach Main HandFacts VelocityFacts HandMore.

Lemma wrist_of_centers ht :
  centers_ok ht ->
  getWristPosition ht = match lastHand ht with Some h => getHandCenter h | None => None end.
Proof.
  intros [C1 _]. unfold getWristPosition. rewrite C1.
  destruct (lastHand ht) as [h|]; [destruct (getHandCenter h)|]; reflexivity.
Qed.

Lemma detect_reachable ht path now :
  ht_reachable ht -> ht_reachable (fst (detect ht path now)).
Proof.
  intro H. destruct path; cbn [detect]; [exact H | apply ht_process, H | apply ht_process, H].
Qed.

(** [detect()] stores the hand it returns as [lastHand], unless it is not
    served at all. *)
Lemma detect_lastHand ht path now :
  path <> NotServed -> lastHand (fst (detect ht path now)) = snd (detect ht path now).
Proof.
  intro P. destruct path; [congruence| |]; cbn [detect];
    match goal with |- context [processHandResult ht ?hs now] =>
      destruct (process_fields ht hs now) as [_ [_ [L _]]]; exact L
    end.
Qed.

Lemma pump_allowed_true st : pump_allowed st = true.
Proof. destruct st; reflexivity. Qed.

(** One round of the worker path on a tracker that holds a hand. *)
Lemma worker_round ht h now :
  lastHand ht = Some h ->
  exists ht1 ht2, detect ht ViaWorker now = (ht1, Some h) /\
    processHandResult ht1 [] now = (ht2, Some h) /\ lastHand ht2 = Some h.
Proof.
  intro H. unfold detect. rewrite H.
  eexists _, _. split; [reflexivity|]. split; reflexivity.
Qed.

Lemma chain_nth {A} (R : A -> A -> Prop) l :
  chain R l -> forall i a b, nth_error l i = Some a -> nth_error l (S i) = Some b -> R a b.
Proof.
  induction l as [|x [|y t] IH]; intros H i a b Ha Hb.
  - destruct i; discriminate.
  - destruct i as [|[|i]]; discriminate.
  - destruct H as [H1 H2]. destruct i as [|i].
    + cbn in Ha, Hb. inversion Ha; inversion Hb; subst. exact H1.
    + exact (IH H2 i a b Ha Hb).
Qed.

Lemma skipn_repeat {A} (c : A) k : forall n, skipn k (repeat c n) = repeat c (n - k).
Proof.
  induction k as [|k IH]; intros [|n]; cbn; try reflexivity. apply IH.
Qed.

Lemma inject_succ (k : nat) : inject_Z (Z.of_nat (S k)) == inject_Z (Z.of_nat k) + 1.
Proof. rewrite Nat2Z.inj_succ, <- Z.add_1_r, inject_Z_plus. reflexivity. Qed.

Lemma fold_sum_repeat c k : forall acc,
  fold_left Qplus (repeat c k) acc == acc + inject_Z (Z.of_nat k) * c.
Proof.
  induction k as [|k IH]; intro acc; cbn [repeat fold_left].
  - cbn. ring.
  - rewrite IH, inject_succ. ring.
Qed.

Lemma fold_sq_repeat c m k : forall acc,
  fold_left (fun a b => a + (b - m) * (b - m)) (repeat c k) acc ==
  acc + inject_Z (Z.of_nat k) * ((c - m) * (c - m)).
Proof.
  induction k as [|k IH]; intro acc; cbn [repeat fold_left].
  - cbn. ring.
  - rewrite IH, inject_succ. ring.
Qed.

Lemma motion_const c n : motion (repeat c n) == 0.
Proof.
  unfold motion. rewrite repeat_length.
  destruct (Nat.ltb_spec n 3) as [L|L]; [reflexivity|].
  unfold slice_last. rewrite repeat_length, skipn_repeat.
  set (k := (n - (n - 5))%nat).
  assert (K : (1 <= k)%nat) by (unfold k; lia).
  rewrite repeat_length.
  pose proof (weight_pos k K) as P.
  assert (NZ : ~ inject_Z (Z.of_nat k) == 0) by (intro E; rewrite E in P; discriminate).
  assert (M : Qsum (repeat c k) / inject_Z (Z.of_nat k) == c).
  { unfold Qsum. rewrite fold_sum_repeat. field. exact NZ. }
  rewrite fold_sq_repeat, M. unfold Qdiv. ring.
Qed.

(** Every method other than [resetSquirt] keeps a raised squirt flag. *)
Lemma step_keeps_squirt ht1 ht2 :
  tracker_step ht1 ht2 -> squirtDetected ht1 = true -> squirtDetected ht2 = true.
Proof.
  destruct 1 as [ht hands now | ht ps | ht hands ps | ht c now | ht]; intro H.
  - destruct (process_fields ht hands now) as [E _]. rewrite E. exact H.
  - exact H.
  - destruct (select_keeps ht hands ps) as [_ [_ [_ E]]]. rewrite E. exact H.
  - exact H.
  - unfold checkSquirt. rewrite H. exact H.
Qed.

End PipelineFacts.

(** ** Additional properties of the HandTracker and of its caller *)
Module HandExtras.
Import Motion Hands Reach Main HandScenarios HandFacts VelocityFacts HandMore PipelineFacts.

(** A tracker after one detection of [full_hand 100 200]. *)
Lemma tracked_reachable :
  ht_reachable (fst (processHandResult init [full_hand 100 200] 0)).
Proof. apply ht_process, ht_init. Qed.

(** X6: in every reachable tracker [lastHandCenter] is the center of
    [lastHand] ([null] when [lastHand] is [null]) and [lastValidCenter] is
    the center of [lastValidHand]; so [getWristPosition()] returns
    [getHandCenter(lastHand)], and [null] when there is no [lastHand]. *)
Theorem wrist_position_is_center ht :
  ht_reachable ht ->
  lastHandCenter ht = match lastHand ht with Some h => getHandCenter h | None => None end /\
  lastValidCenter ht =
    match lastValidHand ht with Some h => getHandCenter h | None => None end /\
  getWristPosition ht = match lastHand ht with Some h => getHandCenter h | None => None end.
Proof.
  intro H. pose proof (reachable_centers_ok ht H) as C.
  destruct C as [C1 C2]. split; [exact C1|]. split; [exact C2|].
  apply wrist_of_centers. split; assumption.
Qed.

Lemma wrist_position_is_center_witness :
  ht_reachable (fst (processHandResult init [full_hand 100 200] 0)) /\
  (let ht := fst (processHandResult init [full_hand 100 200] 0) in
   lastHandCenter ht = match lastHand ht with Some h => getHandCenter h | None => None end /\
   lastValidCenter ht =
     match lastValidHand ht with Some h => getHandCenter h | None => None end /\
   getWristPosition ht = match lastHand ht with Some h => getHandCenter h | None => None end).
Proof.
  split; [exact tracked_reachable|].
  apply wrist_position_is_center. exact tracked_reachable.
Defined.

(** X7: [processHandTracking()] (main.js) on a reachable tracker: when
    [detect()] returns no hand, or a hand with no center, the motion
    detector is left as it was and [handleJump()] is not called; otherwise
    [motionDetector.update] receives the [y] of the center of the returned
    hand, and [handleJump()] is called exactly when [update] returns
    [true], in every game state. *)
Theorem hand_tracking_feeds_center ht md path st now_detect now_update :
  ht_reachable ht ->
  processHandTracking ht md path st now_detect now_update =
    let '(ht1, hand) := detect ht path now_detect in
    match hand with
    | None => (ht1, md, false)
    | Some h =>
        match getHandCenter h with
        | None => (ht1, md, false)
        | Some c => let '(md1, jump) := update md (Some (py c)) now_update in (ht1, md1, jump)
        end
    end.
Proof.
  intro H. unfold processHandTracking.
  destruct path as [| |hands].
  - reflexivity.
  - pose proof (detect_lastHand ht ViaWorker now_detect ltac:(discriminate)) as L.
    pose proof (reachable_centers_ok _ (detect_reachable ht ViaWorker now_detect H)) as C.
    destruct (detect ht ViaWorker now_detect) as [ht1 [h|]]; cbn [fst snd] in L, C;
      [|reflexivity].
    rewrite (wrist_of_centers ht1 C), L.
    destruct (getHandCenter h); [|reflexivity].
    destruct (update md _ now_update). rewrite pump_allowed_true, andb_true_r. reflexivity.
  - pose proof (detect_lastHand ht (MainThread hands) now_detect ltac:(discriminate)) as L.
    pose proof (reachable_centers_ok _ (detect_reachable ht (MainThread hands) now_detect H))
      as C.
    destruct (detect ht (MainThread hands) now_detect) as [ht1 [h|]]; cbn [fst snd] in L, C;
      [|reflexivity].
    rewrite (wrist_of_centers ht1 C), L.
    destruct (getHandCenter h); [|reflexivity].
    destruct (update md _ now_update). rewrite pump_allowed_true, andb_true_r. reflexivity.
Qed.

Lemma hand_tracking_feeds_center_witness :
  ht_reachable (fst (processHandResult init [full_hand 100 200] 0)) /\
  processHandTracking (fst (processHandResult init [full_hand 100 200] 0)) Motion.init
    (MainThread [full_hand 100 150]) GPlaying 30 31 =
    let '(ht1, hand) := detect (fst (processHandResult init [full_hand 100 200] 0))
                          (MainThread [full_hand 100 150]) 30 in
    match hand with
    | None => (ht1, Motion.init, false)
    | Some h =>
        match getHandCenter h with
        | None => (ht1, Motion.init, false)
        | Some c => let '(md1, jump) := update Motion.init (Some (py c)) 31 in (ht1, md1, jump)
        end
    end.
Proof.
  split; [exact tracked_reachable|].
  apply hand_tracking_feeds_center. exact tracked_reachable.
Defined.

(** X8: on the worker path, a tracker holding a hand [h] keeps returning
    [h] for as long as each worker result with no hand is followed by a
    [detect()] call: [detect()] replays [lastHand], which resets
    [lostFrames] to [0], so the [maxLostFrames] window never runs out. *)
Theorem worker_replay_keeps_hand ht h now :
  lastHand ht = Some h ->
  forall k, snd (worker_rounds ht k now) = repeat (Some h) (2 * k) /\
            lastHand (fst (worker_rounds ht k now)) = Some h.
Proof.
  intros H k. revert ht H. induction k as [|k IH]; intros ht H; [split; [reflexivity|exact H]|].
  cbn [worker_rounds].
  destruct (worker_round ht h now H) as [ht1 [ht2 [E1 [E2 L2]]]].
  rewrite E1, E2. destruct (IH ht2 L2) as [R L].
  destruct (worker_rounds ht2 k now) as [ht3 rs]. cbn [fst snd] in *.
  split; [|exact L]. rewrite R. replace (2 * S k)%nat with (S (S (2 * k))) by lia.
  reflexivity.
Qed.

Lemma worker_replay_keeps_hand_witness :
  lastHand (fst (processHandResult init [full_hand 100 200] 0)) = Some (full_hand 100 200) /\
  forall k, snd (worker_rounds (fst (processHandResult init [full_hand 100 200] 0)) k 0) =
              repeat (Some (full_hand 100 200)) (2 * k) /\
            lastHand (fst (worker_rounds (fst (processHandResult init [full_hand 100 200] 0)) k 0))
              = Some (full_hand 100 200).
Proof.
  assert (H : lastHand (fst (processHandResult init [full_hand 100 200] 0)) =
              Some (full_hand 100 200)) by reflexivity.
  split; [exact H|]. apply worker_replay_keeps_hand. exact H.
Defined.

(** X9: on a reachable tracker, [processHandResult] returns one of the
    detected hands when there are some; with none detected it returns
    [lastValidHand] or [null], and it changes only [lastHand],
    [lastHandCenter] and [lostFrames] (incremented by one). *)
Theorem returned_hand_origin ht hands now :
  ht_reachable ht ->
  (hands <> [] -> exists h, snd (processHandResult ht hands now) = Some h /\ In h hands) /\
  (hands = [] ->
     (snd (processHandResult ht hands now) = None \/
      snd (processHandResult ht hands now) = lastValidHand ht) /\
     handHistories (fst (processHandResult ht hands now)) = handHistories ht /\
     activeHandIndex (fst (processHandResult ht hands now)) = activeHandIndex ht /\
     lostFrames (fst (processHandResult ht hands now)) = S (lostFrames ht) /\
     lastValidHand (fst (processHandResult ht hands now)) = lastValidHand ht /\
     lastValidCenter (fst (processHandResult ht hands now)) = lastValidCenter ht /\
     tvelocityHistory (fst (processHandResult ht hands now)) = tvelocityHistory ht /\
     squirtDetected (fst (processHandResult ht hands now)) = squirtDetected ht).
Proof.
  intro H. destruct (reachable_inv ht H) as [Hi _]. split.
  - intro Hne. destruct (process_found ht hands now Hi Hne) as [h [E [I _]]].
    exists h. split; assumption.
  - intro E. subst hands. unfold processHandResult.
    destruct (lastValidHand ht); [destruct (Nat.leb _ _)|]; cbn;
      repeat split; auto.
Qed.

Lemma returned_hand_origin_witness :
  ht_reachable (fst (processHandResult init [full_hand 100 200] 0)) /\
  (let ht := fst (processHandResult init [full_hand 100 200] 0) in
   ([] : list hand) = [] /\
   (snd (processHandResult ht [] 5) = None \/
    snd (processHandResult ht [] 5) = lastValidHand ht) /\
   handHistories (fst (processHandResult ht [] 5)) = handHistories ht /\
   activeHandIndex (fst (processHandResult ht [] 5)) = activeHandIndex ht /\
   lostFrames (fst (processHandResult ht [] 5)) = S (lostFrames ht) /\
   lastValidHand (fst (processHandResult ht [] 5)) = lastValidHand ht /\
   lastValidCenter (fst (processHandResult ht [] 5)) = lastValidCenter ht /\
   tvelocityHistory (fst (processHandResult ht [] 5)) = tvelocityHistory ht /\
   squirtDetected (fst (processHandResult ht [] 5)) = squirtDetected ht).
Proof.
  split; [exact tracked_reachable|]. cbv zeta. split; [reflexivity|].
  exact (proj2 (returned_hand_origin _ [] 5 tracked_reachable) eq_refl).
Defined.

(** X10: with two hands and active slot [a], [selectActiveHand] switches to
    the other slot exactly when the other slot's motion exceeds [1.5] times
    the motion of slot [a]; otherwise it keeps slot [a].  It returns the
    hand at the resulting index. *)
Theorem hysteresis_rule ht hands ps (a : nat) :
  length hands = 2%nat -> length (handHistories ht) = 2%nat -> (a < 2)%nat ->
  activeHandIndex ht = Z.of_nat a ->
  (motion (nth a (handHistories ht) []) * (3 # 2) < motion (nth (1 - a) (handHistories ht) []) ->
   activeHandIndex (fst (selectActiveHand ht hands ps)) = Z.of_nat (1 - a) /\
   sel_hand (snd (selectActiveHand ht hands ps)) = nth_error hands (1 - a)) /\
  (motion (nth (1 - a) (handHistories ht) []) <= motion (nth a (handHistories ht) []) * (3 # 2) ->
   activeHandIndex (fst (selectActiveHand ht hands ps)) = Z.of_nat a /\
   sel_hand (snd (selectActiveHand ht hands ps)) = nth_error hands a).
Proof.
  intros Hh Hl Ha Hc.
  destruct (select_two ht hands ps Hh) as [S1 S2]. rewrite S2, S1, Hc.
  destruct (handHistories ht) as [|h0 [|h1 [|]]]; cbn in Hl; try discriminate.
  pose proof (motion_nonneg h0). pose proof (motion_nonneg h1).
  destruct a as [|[|a]]; try lia; cbn [nth map Nat.sub] in *;
    unfold choose_index; split; intro; qcases; try lra; split; reflexivity.
Qed.

Lemma hysteresis_rule_witness :
  (length [full_hand 0 0; full_hand 50 0] = 2%nat /\
   length (handHistories (tracker_with [hist10; hist16] 0)) = 2%nat /\
   (0 < 2)%nat /\ activeHandIndex (tracker_with [hist10; hist16] 0) = Z.of_nat 0) /\
  ((motion (nth 0 (handHistories (tracker_with [hist10; hist16] 0)) []) * (3 # 2) <
      motion (nth (1 - 0) (handHistories (tracker_with [hist10; hist16] 0)) []) ->
    activeHandIndex (fst (selectActiveHand (tracker_with [hist10; hist16] 0)
                            [full_hand 0 0; full_hand 50 0] [None; None])) = Z.of_nat (1 - 0) /\
    sel_hand (snd (selectActiveHand (tracker_with [hist10; hist16] 0)
                     [full_hand 0 0; full_hand 50 0] [None; None])) =
      nth_error [full_hand 0 0; full_hand 50 0] (1 - 0)) /\
   (motion (nth (1 - 0) (handHistories (tracker_with [hist10; hist16] 0)) []) <=
      motion (nth 0 (handHistories (tracker_with [hist10; hist16] 0)) []) * (3 # 2) ->
    activeHandIndex (fst (selectActiveHand (tracker_with [hist10; hist16] 0)
                            [full_hand 0 0; full_hand 50 0] [None; None])) = Z.of_nat 0 /\
    sel_hand (snd (selectActiveHand (tracker_with [hist10; hist16] 0)
                     [full_hand 0 0; full_hand 50 0] [None; None])) =
      nth_error [full_hand 0 0; full_hand 50 0] 0)).
Proof.
  split; [repeat split; first [reflexivity | lia]|].
  apply hysteresis_rule; first [reflexivity | lia].
Defined.

(** X11: the motion score of a history is a variance: it is never
    negative, and a history of one repeated value (a hand held still)
    scores [0]. *)
Theorem motion_is_variance :
  (forall history, 0 <= motion history) /\
  (forall c n, motion (repeat c n) == 0).
Proof. split; [apply motion_nonneg | apply motion_const]. Qed.

(** X12: in every reachable tracker each history slot holds at most
    [historyLength = 10] samples. *)
Theorem history_slots_capped ht :
  ht_reachable ht ->
  Forall (fun h => (length h <= historyLength)%nat) (handHistories ht).
Proof. apply reachable_history_caps. Qed.

Lemma history_slots_capped_witness :
  ht_reachable (fst (processHandResult init [full_hand 100 200] 0)) /\
  Forall (fun h => (length h <= historyLength)%nat)
    (handHistories (fst (processHandResult init [full_hand 100 200] 0))).
Proof.
  split; [exact tracked_reachable|]. apply history_slots_capped. exact tracked_reachable.
Defined.

(** X13: in every reachable tracker the squirt velocity history holds at
    most [maxVelocityHistory = 5] samples, the velocity stored with each
    sample is the [y] of the sample before it minus its own [y] (positive
    when the hand moved up), and while the history holds fewer than 5
    samples its first sample has velocity [0]. *)
Theorem velocity_history_chained ht :
  ht_reachable ht ->
  (length (tvelocityHistory ht) <= Hands.maxVelocityHistory)%nat /\
  (forall i a b, nth_error (tvelocityHistory ht) i = Some a ->
     nth_error (tvelocityHistory ht) (S i) = Some b -> v_velocity b = v_y a - v_y b) /\
  ((length (tvelocityHistory ht) < Hands.maxVelocityHistory)%nat ->
     forall e, hd_error (tvelocityHistory ht) = Some e -> v_velocity e = 0).
Proof.
  intro H. destruct (reachable_vh_ok ht H) as [L [C Z]].
  split; [exact L|]. split; [|exact Z]. apply chain_nth, C.
Qed.

Lemma velocity_history_chained_witness :
  ht_reachable (fst (processHandResult init [full_hand 100 200] 0)) /\
  (let ht := fst (processHandResult init [full_hand 100 200] 0) in
   (length (tvelocityHistory ht) <= Hands.maxVelocityHistory)%nat /\
   (forall i a b, nth_error (tvelocityHistory ht) i = Some a ->
      nth_error (tvelocityHistory ht) (S i) = Some b -> v_velocity b = v_y a - v_y b) /\
   ((length (tvelocityHistory ht) < Hands.maxVelocityHistory)%nat ->
      forall e, hd_error (tvelocityHistory ht) = Some e -> v_velocity e = 0)).
Proof.
  split; [exact tracked_reachable|]. apply velocity_history_chained. exact tracked_reachable.
Defined.

(** X15: once [squirtDetected] is set, every later call of the tracker's
    methods other than [resetSquirt] keeps it set, and [checkSquirt()]
    returns [true] without changing anything; [resetSquirt()] clears it,
    after which [checkSquirt()] returns [false]. *)
Theorem squirt_latched ht ht' :
  squirtDetected ht = true -> tracker_steps ht ht' ->
  squirtDetected ht' = true /\ checkSquirt ht' = (ht', true) /\
  snd (checkSquirt (resetSquirt ht')) = false.
Proof.
  intros H S. induction S as [ht | ht1 ht2 ht3 St _ IH].
  - split; [exact H|]. unfold checkSquirt. rewrite H. split; reflexivity.
  - apply IH. exact (step_keeps_squirt ht1 ht2 St H).
Qed.

Lemma squirt_latched_witness :
  squirtDetected latched_tracker = true /\
  tracker_steps latched_tracker (fst (processHandResult latched_tracker [full_hand 100 20] 0)) /\
  (squirtDetected (fst (processHandResult latched_tracker [full_hand 100 20] 0)) = true /\
   checkSquirt (fst (processHandResult latched_tracker [full_hand 100 20] 0)) =
     (fst (processHandResult latched_tracker [full_hand 100 20] 0), true) /\
   snd (checkSquirt (resetSquirt (fst (processHandResult latched_tracker [full_hand 100 20] 0))))
     = false).
Proof.
  assert (S : tracker_steps latched_tracker
                (fst (processHandResult latched_tracker [full_hand 100 20] 0)))
    by (eapply steps_cons; [apply step_process | apply steps_refl]).
  split; [reflexivity|]. split; [exact S|].
  apply (squirt_latched latched_tracker); [reflexivity | exact S].
Defined.

End HandExtras.

(** ** The squirt test on a tracked history *)
Module SquirtExtras.
Import Hands Reach HandFacts HandMore HandExtras HandScenarios.

Lemma div3 x : x / inject_Z (Z.of_nat 3) = x * (1 # 3).
Proof. reflexivity. Qed.

(** X14: on a reachable tracker with the squirt flag down and at least 3
    velocity samples, [checkSquirt()] returns [true] exactly when the hand
    rose by more than [45] (an average of [15] per step) from the fourth
    newest sample (the oldest one while only 3 are stored) to the newest,
    and the newest [y] is below [50] or [lostFrames] is between [1] and [4]. *)
Theorem squirt_rule ht :
  ht_reachable ht -> squirtDetected ht = false -> (3 <= length (tvelocityHistory ht))%nat ->
  snd (checkSquirt ht) = true <->
  45 < v_y (nth (length (tvelocityHistory ht) - 4) (tvelocityHistory ht)
              {| v_y := 0; v_velocity := 0; v_time := 0 |}) -
       v_y (nth (length (tvelocityHistory ht) - 1) (tvelocityHistory ht)
              {| v_y := 0; v_velocity := 0; v_time := 0 |}) /\
  (v_y (nth (length (tvelocityHistory ht) - 1) (tvelocityHistory ht)
          {| v_y := 0; v_velocity := 0; v_time := 0 |}) < 50 \/
   (0 < lostFrames ht /\ lostFrames ht < 5)%nat).
Proof.
  intros H Hs Hl. destruct (reachable_vh_ok ht H) as [L [C Z]].
  unfold checkSquirt. rewrite Hs.
  destruct (Nat.ltb_spec 0 (lostFrames ht)) as [F1|F1];
  destruct (Nat.ltb_spec (lostFrames ht) 5) as [F2|F2];
  destruct ht as [lh lc hh ai lf lvc lvh vh sq]; cbn in *;
  unfold Hands.maxVelocityHistory in *;
  destruct vh as [|e0 [|e1 [|e2 [|e3 [|e4 [|e5 r]]]]]]; cbn [length] in Hl, L; try lia;
    cbn in C; repeat match goal with HC : _ /\ _ |- _ => destruct HC end;
    cbn [slice_last length Nat.sub skipn map rev app nth Qsum fold_left Nat.ltb Nat.leb];
    repeat match goal with HC : v_velocity _ = _ |- _ => rewrite HC; clear HC end;
    try (rewrite (Z ltac:(cbn; lia) e0 eq_refl));
    rewrite div3; qcases; cbn [andb orb snd];
    split; intros; intuition (try lra; try lia; try discriminate).
Qed.

Lemma squirt_rule_witness :
  let t := fst (processHandResult
              (fst (processHandResult
                      (fst (processHandResult init [full_hand 100 200] 0))
                      [full_hand 100 120] 33))
              [full_hand 100 40] 66) in
  squirtDetected t = false /\ (3 <= length (tvelocityHistory t))%nat /\
  (snd (checkSquirt t) = true <->
   45 < v_y (nth (length (tvelocityHistory t) - 4) (tvelocityHistory t)
               {| v_y := 0; v_velocity := 0; v_time := 0 |}) -
        v_y (nth (length (tvelocityHistory t) - 1) (tvelocityHistory t)
               {| v_y := 0; v_velocity := 0; v_time := 0 |}) /\
   (v_y (nth (length (tvelocityHistory t) - 1) (tvelocityHistory t)
           {| v_y := 0; v_velocity := 0; v_time := 0 |}) < 50 \/
    (0 < lostFrames t /\ lostFrames t < 5)%nat)).
Proof.
  intro t.
  assert (R : ht_reachable t) by (unfold t; repeat apply ht_process; apply ht_init).
  assert (S : squirtDetected t = false) by (vm_compute; reflexivity).
  assert (L : (3 <= length (tvelocityHistory t))%nat) by (vm_compute; lia).
  split; [exact S | split; [exact L | apply (squirt_rule t R S L)]].
Defined.

End SquirtExtras.
